(** * subtool (mkvtool): the command dispatcher of [main.go]

    A shallow embedding of [readable] and [main].  The helpers that [main]
    calls but that live in other files of the package ([requirements],
    [mustParseFile], [extract], [submux], [remux], [format], [rename],
    [setdefault], [trackByLanguage], [show]), the two operating-system
    calls ([os.Stat], [os.Remove]), the argument parser and the header of
    the standard logger are taken as an interface, [Platform]; every
    theorem of the generic part holds for all of its instances. *)

From Stdlib Require Import String List ZArith Bool Lia.
Import ListNotations.
Open Scope string_scope.
Open Scope list_scope.

Set Implicit Arguments.

(** ** Data *)

(** A Go [error] value, identified with its message; [nil] is [None]. *)
Definition error := string.

(** [fmt.Errorf("%s: %v", fname, err)] (and its ["%s: %s"] twin): the
    message of [err] behind the file name. *)
Definition Errorf (fname : string) (err : error) : error :=
  (fname ++ ": " ++ err)%string.

(** The two values the interface variable [run] can hold in [main]. *)
Inductive runner : Type :=
| runCmd       (* var runCmd runCommand: the live runner *)
| fakeRunCmd.  (* var fakeRunCmd fakeRunCommand: only prints commands *)

(** The selected subcommand together with its parsed flags and arguments,
    as produced by [kingpin.MustParse(app.Parse(os.Args[1:]))]. *)
Inductive command : Type :=
| versionCmd
| mergeCmd (mergeOutput : string) (mergeSubs : bool) (mergeInputs : list string)
| onlyCmd (setOnlyTrack : Z) (setOnlyInput setOnlyOutput : string)
| printCmd (printFormat : string) (printFiles : list string)
| remuxCmd (remuxCmdInput remuxCmdOutput : string)
| renameCmd (renameFormat : string) (renameFiles : list string)
| setDefaultCmd (setDefaultTrack : Z) (setDefaultFiles : list string)
| setDefaultByLangCmd (setDefaultByLangList setDefaultByLangIgnore
                       setDefaultByLangFiles : list string)
| showCmd (showUID : bool) (showFiles : list string).

(** What [kingpin.MustParse(app.Parse(os.Args[1:]))] gives for the
    application declared at the top of [main]: the selected subcommand
    with the value of [--dry-run], or the exit that the parser takes
    itself (with its own message on a command line it refuses, after the
    usage text on [--help]). *)
Inductive invocation : Type :=
| Parsed (dryrun : bool) (k : command)
| ParserExit (code : Z).

(** ** The interface of the helpers

    Every helper may read and change the outside world (files, child
    processes, its own output), so it is a function on [world].
    [os.Stat] only queries the world.  [mustParseFile] returns a single
    value in the source; [None] stands for a call that ends the process
    instead of returning. *)
Class Platform : Type := {
  world : Type;
  matroska : Type;
  trackFileInfo : Type;
  fname : trackFileInfo -> string;
  BuildVersion : string;
  (* the rendering of a string by the verb %q *)
  quote : string -> string;
  (* what the standard logger writes in front of a line while it still has
     its initial flags: date and time *)
  log_header : world -> string;
  (* the argument parser, on the arguments of the process *)
  MustParse : list string -> invocation;
  requirements : world -> option error * world;
  os_Stat : string -> world -> option error;
  os_Remove : string -> world -> option error * world;
  mustParseFile : string -> world -> option matroska * world;
  extract : matroska -> Z -> runner -> world ->
            (trackFileInfo * option error) * world;
  submux : string -> string -> bool -> runner -> trackFileInfo -> world ->
           option error * world;
  remux : list string -> string -> runner -> bool -> world ->
          option error * world;
  format : string -> string -> world -> (string * option error) * world;
  rename : string -> string -> bool -> world -> option error * world;
  setdefault : matroska -> Z -> runner -> world -> option error * world;
  trackByLanguage : matroska -> list string -> list string -> world ->
                    (Z * option error) * world;
  show : matroska -> bool -> world -> world
}.

(** ** Effects: a state monad that records what [main] does *)

(** How a computation ends. *)
Inductive result (A : Type) : Type :=
| Returned (a : A)
| Exited (code : Z)   (* os.Exit(code) *)
| Halted.             (* a helper ended the process instead of returning *)
Arguments Exited {A} code%_Z.
Arguments Halted {A}.

(** What a loop body asks of its [for]: go on with the next element (the
    body ran to its end, or hit [continue]) or leave the loop ([break]). *)
Inductive ctl : Type := Next | Break.

Section Dispatcher.

Context {P : Platform}.

(** One entry per call that leaves [main.go], with the arguments passed and
    the value that came back, and one per line that [main.go] itself writes. *)
Inductive event : Type :=
| EvRequirements (err : option error)
| EvStat (f : string) (err : option error)
| EvRemove (f : string) (err : option error)
| EvMustParseFile (f : string) (mkv : option matroska)
| EvExtract (mkv : matroska) (track : Z) (run : runner)
            (tfi : trackFileInfo) (err : option error)
| EvSubmux (input output : string) (only : bool) (run : runner)
           (tfi : trackFileInfo) (err : option error)
| EvRemux (inputs : list string) (output : string) (run : runner)
          (subs : bool) (err : option error)
| EvFormat (mask f : string) (output : string) (err : option error)
| EvRename (mask f : string) (dryrun : bool) (err : option error)
| EvSetdefault (mkv : matroska) (track : Z) (run : runner)
               (err : option error)
| EvTrackByLanguage (mkv : matroska) (langs ignore : list string)
                    (track : Z) (err : option error)
| EvShow (mkv : matroska) (uid : bool)
| EvStdout (line : string)   (* fmt.Println, fmt.Printf *)
| EvLog (line : string)      (* log.Printf, log.Println *)
| EvFatal (line : string).   (* log.Fatalf, log.Fatalln: the line, then os.Exit(1) *)

(** The mutable state: the outside world and the local slice [errors]. *)
Record state : Type := mkState {
  st_world : world;
  errors : list (option error)
}.

Record outcome (A : Type) : Type := mkOutcome {
  res : result A;
  final : state;
  events : list event
}.

Definition M (A : Type) : Type := state -> outcome A.

Definition ret {A : Type} (a : A) : M A :=
  fun s => mkOutcome (Returned a) s [].

Definition bind {A B : Type} (m : M A) (k : A -> M B) : M B :=
  fun s =>
    let o := m s in
    match res o with
    | Returned a =>
        let o' := k a (final o) in
        mkOutcome (res o') (final o') (events o ++ events o')
    | Exited c => mkOutcome (Exited c) (final o) (events o)
    | Halted => mkOutcome Halted (final o) (events o)
    end.

Notation "x <- m ;; k" := (bind m (fun x => k))
  (at level 61, m at next level, right associativity).
Notation "m ;;; k" := (bind m (fun _ => k))
  (at level 61, right associativity).

Definition emit (e : event) : M unit :=
  fun s => mkOutcome (Returned tt) s [e].

(** A call of a helper [f]; [ev] builds the record of the call from what
    [f] returned. *)
Definition call {A : Type} (f : world -> A * world) (ev : A -> event) : M A :=
  fun s =>
    let (a, w) := f (st_world s) in
    mkOutcome (Returned a) (mkState w (errors s)) [ev a].

(** [errors = append(errors, err)] *)
Definition append_error (err : option error) : M unit :=
  fun s => mkOutcome (Returned tt) (mkState (st_world s) (errors s ++ [err])) [].

(** [log.Fatalf] / [log.Fatalln] *)
Definition log_Fatal {A : Type} (line : string) : M A :=
  fun s => mkOutcome (Exited 1) s [EvFatal line].

(** [for _, x := range xs { body }] *)
Fixpoint for_range {A : Type} (xs : list A) (body : A -> M ctl) : M unit :=
  match xs with
  | [] => ret tt
  | x :: xs' =>
      c <- body x ;;
      match c with
      | Next => for_range xs' body
      | Break => ret tt
      end
  end.

(** ** The helpers as called from [main.go] *)

Definition call_requirements : M (option error) :=
  call requirements EvRequirements.

Definition call_Stat (f : string) : M (option error) :=
  fun s => mkOutcome (Returned (os_Stat f (st_world s))) s
                     [EvStat f (os_Stat f (st_world s))].

Definition call_Remove (f : string) : M (option error) :=
  call (os_Remove f) (EvRemove f).

Definition call_mustParseFile (f : string) : M matroska :=
  r <- call (mustParseFile f) (EvMustParseFile f) ;;
  match r with
  | Some mkv => ret mkv
  | None => fun s => mkOutcome Halted s []
  end.

Definition call_extract (mkv : matroska) (track : Z) (run : runner)
  : M (trackFileInfo * option error) :=
  call (extract mkv track run) (fun r => EvExtract mkv track run (fst r) (snd r)).

Definition call_submux (input output : string) (only : bool) (run : runner)
  (tfi : trackFileInfo) : M (option error) :=
  call (submux input output only run tfi) (EvSubmux input output only run tfi).

Definition call_remux (inputs : list string) (output : string) (run : runner)
  (subs : bool) : M (option error) :=
  call (remux inputs output run subs) (EvRemux inputs output run subs).

Definition call_format (mask f : string) : M (string * option error) :=
  call (format mask f) (fun r => EvFormat mask f (fst r) (snd r)).

Definition call_rename (mask f : string) (dryrun : bool) : M (option error) :=
  call (rename mask f dryrun) (EvRename mask f dryrun).

Definition call_setdefault (mkv : matroska) (track : Z) (run : runner)
  : M (option error) :=
  call (setdefault mkv track run) (EvSetdefault mkv track run).

Definition call_trackByLanguage (mkv : matroska) (langs ignore : list string)
  : M (Z * option error) :=
  call (trackByLanguage mkv langs ignore)
       (fun r => EvTrackByLanguage mkv langs ignore (fst r) (snd r)).

Definition call_show (mkv : matroska) (uid : bool) : M unit :=
  call (fun w => (tt, show mkv uid w)) (fun _ => EvShow mkv uid).

(** ** [readable] *)

(** The line of [log.Printf("Note: File %q is not readable. Skipping.", f)]. *)
Definition skip_note (f : string) : string :=
  ("Note: File " ++ quote f ++ " is not readable. Skipping.")%string.

(** The loop of [readable], with the slice [ret] built so far. *)
Fixpoint readable_from (fnames : list string) (ret_ : list string)
  : M (list string) :=
  match fnames with
  | [] => ret ret_
  | f :: rest =>
      err <- call_Stat f ;;
      match err with
      | None => readable_from rest (ret_ ++ [f])
      | Some _ => emit (EvLog (skip_note f)) ;;; readable_from rest ret_
      end
  end.

Definition readable (fnames : list string) : M (list string) :=
  readable_from fnames [].

(** ** [main] *)

(** [run = runCmd; if *dryrun { fmt.Println(...); run = fakeRunCmd }] *)
Definition select_runner (dryrun : bool) : M runner :=
  if dryrun
  then emit (EvStdout "Dry-run mode: Will not modify any files.") ;;;
       ret fakeRunCmd
  else ret runCmd.

(** [if err := requirements(); err != nil { log.Fatalf(...) }].  The
    fatal line is written before [log.SetFlags(0)] is reached, so it
    carries the header of the logger; every later line is plain. *)
Definition startup : M unit :=
  err <- call_requirements ;;
  match err with
  | Some e =>
      fun s =>
        log_Fatal (log_header (st_world s) ++ "Requirements check: " ++ e)%string
                  s
  | None => ret tt
  end.

(** [var errors []error] *)
Definition declare_errors : M unit :=
  fun s => mkOutcome (Returned tt) (mkState (st_world s) []) [].

(** The bodies of the five [for] loops of the [switch]. *)

Definition print_body (printFormat : string) (fname : string) : M ctl :=
  r <- call_format printFormat fname ;;
  match snd r with
  | Some e => append_error (Some (Errorf fname e)) ;;; ret Next  (* continue *)
  | None => emit (EvStdout (fst r)) ;;; ret Next
  end.

Definition rename_body (renameFormat : string) (dryrun : bool) (fname : string)
  : M ctl :=
  err <- call_rename renameFormat fname dryrun ;;
  match err with
  | Some e => append_error (Some (Errorf fname e)) ;;; ret Next
  | None => ret Next
  end.

Definition setDefault_body (setDefaultTrack : Z) (run : runner) (fname : string)
  : M ctl :=
  mkv <- call_mustParseFile fname ;;
  err <- call_setdefault mkv setDefaultTrack run ;;
  match err with
  | Some e => append_error (Some (Errorf fname e)) ;;; ret Next
  | None => ret Next
  end.

Definition setDefaultByLang_body (setDefaultByLangList setDefaultByLangIgnore
  : list string) (run : runner) (fname : string) : M ctl :=
  mkv <- call_mustParseFile fname ;;
  r <- call_trackByLanguage mkv setDefaultByLangList setDefaultByLangIgnore ;;
  match snd r with
  | Some e => append_error (Some (Errorf fname e)) ;;; ret Break  (* break *)
  | None =>
      err <- call_setdefault mkv (fst r) run ;;
      match err with
      | Some e => append_error (Some (Errorf fname e)) ;;; ret Next
      | None => ret Next
      end
  end.

Definition show_body (showUID : bool) (f : string) : M ctl :=
  mkv <- call_mustParseFile f ;;
  call_show mkv showUID ;;;
  ret Next.

(** [switch k { ... }] *)
Definition dispatch (dryrun : bool) (run : runner) (k : command) : M unit :=
  match k with
  | versionCmd =>
      emit (EvStdout ("Build Version: " ++ BuildVersion)%string)
  | mergeCmd mergeOutput mergeSubs mergeInputs =>
      err <- call_remux mergeInputs mergeOutput run mergeSubs ;;
      append_error err
  | onlyCmd setOnlyTrack setOnlyInput setOnlyOutput =>
      mkv <- call_mustParseFile setOnlyInput ;;
      r <- call_extract mkv setOnlyTrack run ;;
      match snd r with
      | Some e => append_error (Some (Errorf setOnlyInput e))  (* break *)
      | None =>
          err <- call_submux setOnlyInput setOnlyOutput true run (fst r) ;;
          append_error err ;;;
          (* Attempt to remove even on error. *)
          call_Remove (fname (fst r)) ;;;
          ret tt
      end
  | printCmd printFormat printFiles =>
      for_range printFiles (print_body printFormat)
  | remuxCmd remuxCmdInput remuxCmdOutput =>
      err <- call_remux [remuxCmdInput] remuxCmdOutput run true ;;
      append_error err
  | renameCmd renameFormat renameFiles =>
      fnames <- readable renameFiles ;;
      for_range fnames (rename_body renameFormat dryrun)
  | setDefaultCmd setDefaultTrack setDefaultFiles =>
      fnames <- readable setDefaultFiles ;;
      for_range fnames (setDefault_body setDefaultTrack run)
  | setDefaultByLangCmd setDefaultByLangList setDefaultByLangIgnore
                        setDefaultByLangFiles =>
      fnames <- readable setDefaultByLangFiles ;;
      for_range fnames
        (setDefaultByLang_body setDefaultByLangList setDefaultByLangIgnore run)
  | showCmd showUID showFiles =>
      fnames <- readable showFiles ;;
      for_range fnames (show_body showUID)
  end.

(** The closing loop: [for _, err := range errors { if err != nil {
    log.Println(err); failed = true } }], started with [failed]. *)
Fixpoint report_loop (errs : list (option error)) (failed : bool) : M bool :=
  match errs with
  | [] => ret failed
  | None :: rest => report_loop rest failed
  | Some e :: rest => emit (EvLog e) ;;; report_loop rest true
  end.

Definition report : M unit :=
  fun s =>
    (failed <- report_loop (errors s) false ;;
     if failed then log_Fatal "Execution failed" else ret tt) s.

(** Everything [main] does before it looks at the collected errors, for
    the invocation [dryrun], [k] that the argument parser returned; the
    call of the parser itself, which may end the process, is in [process]
    below. *)
Definition collect (dryrun : bool) (k : command) : M unit :=
  startup ;;;
  run <- select_runner dryrun ;;
  declare_errors ;;;
  dispatch dryrun run k.

Definition main (dryrun : bool) (k : command) : M unit :=
  collect dryrun k ;;; report.

(** The process, started in world [w]. *)
Definition run_main (dryrun : bool) (k : command) (w : world) : outcome unit :=
  main dryrun k (mkState w []).

(** [main] from the arguments of the process: [collect] and [main] above
    take the invocation that the argument parser returned; here the
    parser is called, after the requirements check and before the Runner
    is chosen, and may end the process itself. *)
Definition process (args : list string) : M unit :=
  startup ;;;
  match MustParse args with
  | ParserExit code => fun s => mkOutcome (Exited code) s []
  | Parsed dryrun k =>
      run <- select_runner dryrun ;;
      declare_errors ;;;
      dispatch dryrun run k ;;;
      report
  end.

Definition run_process (args : list string) (w : world) : outcome unit :=
  process args (mkState w []).

End Dispatcher.

(** ** Vocabulary of the statements *)

Section Vocabulary.

Context {P : Platform}.

(** The check of [readable]: [os.Stat(f)] returned a nil error. *)
Definition stat_ok (w : world) (f : string) : bool :=
  match os_Stat f w with
  | None => true
  | Some _ => false
  end.

(** What [readable] does for one name: the call of [os.Stat] and, when it
    failed, the note on the log. *)
Definition stat_events (w : world) (f : string) : list event :=
  match os_Stat f w with
  | None => [EvStat f None]
  | Some e =>
      [EvStat f (Some e);
       EvLog ("Note: File " ++ quote f ++ " is not readable. Skipping.")%string]
  end.

(** The runner that [main] hands to the helpers. *)
Definition runner_of (dryrun : bool) : runner :=
  if dryrun then fakeRunCmd else runCmd.

(** What [main] writes before the [switch] when the requirements check
    passed. *)
Definition prologue (dryrun : bool) : list event :=
  EvRequirements None ::
  (if dryrun then [EvStdout "Dry-run mode: Will not modify any files."] else []).

(** The lines of the closing loop: one per non-nil error, in order. *)
Definition error_lines (errs : list (option error)) : list event :=
  flat_map (fun err => match err with
                       | Some e => [EvLog e]
                       | None => []
                       end) errs.

(** Some collected error is not nil. *)
Definition any_failed (errs : list (option error)) : bool :=
  existsb (fun err => match err with Some _ => true | None => false end) errs.

(** The event is a call that works on the file named [f]. *)
Definition works_on (f : string) (e : event) : Prop :=
  match e with
  | EvMustParseFile g _ => g = f
  | EvFormat _ g _ _ => g = f
  | EvRename _ g _ _ => g = f
  | EvRemux inputs _ _ _ _ => In f inputs
  | EvSubmux g _ _ _ _ _ => g = f
  | _ => False
  end.


(** The subcommands whose [case] starts with [readable], with the list
    they pass to it. *)
Definition filtered_files (k : command) : option (list string) :=
  match k with
  | renameCmd _ fs => Some fs
  | setDefaultCmd _ fs => Some fs
  | setDefaultByLangCmd _ _ fs => Some fs
  | showCmd _ fs => Some fs
  | _ => None
  end.

(** The subcommands that record one error per failing file of a list. *)
Definition looped_files (k : command) : option (list string) :=
  match k with
  | printCmd _ fs => Some fs
  | renameCmd _ fs => Some fs
  | setDefaultCmd _ fs => Some fs
  | setDefaultByLangCmd _ _ fs => Some fs
  | _ => None
  end.

(** The closing events of a run that collected the single error [err]. *)
Definition verdict (err : option error) : list event :=
  match err with
  | Some e => [EvLog e; EvFatal "Execution failed"]
  | None => []
  end.

Definition is_fatal (e : event) : Prop :=
  match e with
  | EvFatal _ => True
  | _ => False
  end.



(** The body of the loop of [k] over its files. *)
Definition body_of (dryrun : bool) (run : runner) (k : command)
  : string -> M ctl :=
  match k with
  | printCmd m _ => print_body m
  | renameCmd m _ => rename_body m dryrun
  | setDefaultCmd t _ => setDefault_body t run
  | setDefaultByLangCmd l i _ => setDefaultByLang_body l i run
  | showCmd u _ => show_body u
  | _ => fun _ => ret Next
  end.


(** In the events [evs] of a run that ends with the errors [errs]:
    every call of [setdefault] comes right after a call of
    [trackByLanguage] on the same parsed file that returned that track
    number and no error; every call of [trackByLanguage] that returned an
    error [e] comes right after the parsing of a file [f] of [fs], the
    error [e] behind the name of [f] is among [errs], and the call is not
    followed by a
    call of [setdefault]. *)
Definition guarded_selection (langs ignore fs : list string)
  (evs : list event) (errs : list (option error)) : Prop :=
  (forall pre m t r err post,
     evs = pre ++ EvSetdefault m t r err :: post ->
     exists pre', pre = pre' ++ [EvTrackByLanguage m langs ignore t None])
  /\ (forall pre m l i t e post,
        evs = pre ++ EvTrackByLanguage m l i t (Some e) :: post ->
        (exists pre' f,
           pre = pre' ++ [EvMustParseFile f (Some m)]
           /\ In f fs /\ In (Some (f ++ ": " ++ e)%string) errs)
        /\ (forall m' t' r' err' post',
              post <> EvSetdefault m' t' r' err' :: post')).

(** The dry-run flag makes no difference to what the [switch] does for
    [k], given the Runner. *)
Definition flag_only_through_runner (k : command) : Prop :=
  forall (d1 d2 : bool) (run : runner) (s : state),
    dispatch d1 run k s = dispatch d2 run k s.


Definition is_rename (k : command) : bool :=
  match k with
  | renameCmd _ _ => true
  | _ => false
  end.

End Vocabulary.

(** ** A concrete platform, to run [main] on examples

    The world is a disk: the names of the files on it.  The helpers are
    small stand-ins that succeed or fail depending on their arguments and
    on the disk, and touch the disk only with the live runner. *)

Module Sim.

Definition disk : Type := list string.

Definition on_disk (f : string) (d : disk) : bool :=
  existsb (String.eqb f) d.

Definition delete (f : string) (d : disk) : disk :=
  filter (fun g => negb (String.eqb f g)) d.

Definition enoent (op f : string) : error :=
  (op ++ " " ++ f ++ ": no such file or directory")%string.

Definition dquote : string := String (Ascii.ascii_of_nat 34) EmptyString.

Definition sim_Stat (f : string) (d : disk) : option error :=
  if on_disk f d then None else Some (enoent "stat" f).

Definition sim_Remove (f : string) (d : disk) : option error * disk :=
  if on_disk f d then (None, delete f d) else (Some (enoent "remove" f), d).

(** A parsed file is its path; parsing a file that is not there ends the
    process. *)
Definition sim_mustParseFile (f : string) (d : disk) : option string * disk :=
  (if on_disk f d then Some f else None, d).

(** The subtitle tracks of a file: number and language. *)
Definition sim_tracks (mkv : string) : list (Z * string) :=
  if String.eqb mkv "a.mkv" then [(2%Z, "fre")]
  else [(2%Z, "eng"); (3%Z, "fre")].

Fixpoint sim_select (tracks : list (Z * string)) (langs : list string)
  : Z * option error :=
  match langs with
  | [] => (0%Z, Some "no matching track")
  | l :: rest =>
      match find (fun t => String.eqb (snd t) l) tracks with
      | Some t => (fst t, None)
      | None => sim_select tracks rest
      end
  end.

Definition sim_extract (mkv : string) (track : Z) (run : runner) (d : disk)
  : (string * option error) * disk :=
  let tmp := (mkv ++ ".srt")%string in
  if existsb (fun t => Z.eqb (fst t) track) (sim_tracks mkv)
  then match run with
       | runCmd => ((tmp, None), tmp :: d)
       | fakeRunCmd => ((tmp, None), d)
       end
  else ((tmp, Some "no such track"), d).

Definition sim_write (inputs : list string) (output : string) (run : runner)
  (d : disk) : option error * disk :=
  match run with
  | fakeRunCmd => (None, d)
  | runCmd =>
      if forallb (fun f => on_disk f d) inputs
      then (None, output :: d)
      else (Some "mkvmerge: exit status 2", d)
  end.

Definition sim_rename (mask f : string) (dryrun : bool) (d : disk)
  : option error * disk :=
  if dryrun then (None, d)
  else if on_disk f d then (None, (mask ++ f)%string :: delete f d)
  else (Some (enoent "rename" f), d).

Definition sim_setdefault (mkv : string) (track : Z) (run : runner) (d : disk)
  : option error * disk :=
  if existsb (fun t => Z.eqb (fst t) track) (sim_tracks mkv)
  then (None, d)
  else (Some "no such track", d).

(** A few command lines, as the argument parser reads them. *)
Definition sim_parse (args : list string) : invocation :=
  match args with
  | [a] =>
      if String.eqb a "--help" then ParserExit 0
      else if String.eqb a "version" then Parsed false versionCmd
      else ParserExit 1
  | a :: b :: rest =>
      if String.eqb a "-n" then
        if String.eqb b "rename" then Parsed true (renameCmd "new-" rest)
        else ParserExit 1
      else if String.eqb a "rename" then
        Parsed false (renameCmd "new-" (b :: rest))
      else if String.eqb a "setdefault" then
        if String.eqb b "3" then Parsed false (setDefaultCmd 3 rest)
        else ParserExit 1
      else if String.eqb a "merge" then
        Parsed false (mergeCmd b true rest)
      else ParserExit 1
  | [] => ParserExit 1
  end.

Definition sim_header (d : disk) : string := "2009/11/10 23:00:00 ".

Definition platform : Platform := {|
  world := disk;
  matroska := string;
  trackFileInfo := string;
  fname := fun tfi => tfi;
  BuildVersion := "dev";
  quote := fun f => (dquote ++ f ++ dquote)%string;
  log_header := sim_header;
  MustParse := sim_parse;
  requirements := fun d => (None, d);
  os_Stat := sim_Stat;
  os_Remove := sim_Remove;
  mustParseFile := sim_mustParseFile;
  extract := sim_extract;
  submux := fun input output only run tfi =>
              sim_write [input; tfi] output run;
  remux := fun inputs output run subs => sim_write inputs output run;
  format := fun mask f d =>
              if String.eqb f "" then (("", Some "empty file name"), d)
              else (((mask ++ f)%string, None), d);
  rename := sim_rename;
  setdefault := sim_setdefault;
  trackByLanguage := fun mkv langs ignore d =>
                       (sim_select (sim_tracks mkv) langs, d);
  show := fun mkv uid d => d
|}.

(** The runs used below. *)

Definition bylang_two_files : outcome unit :=
  @run_main platform false
    (setDefaultByLangCmd ["eng"] [] ["a.mkv"; "b.mkv"]) ["a.mkv"; "b.mkv"].

Definition only_dry : outcome unit :=
  @run_main platform true (onlyCmd 2 "a.mkv" "out.mkv") ["a.mkv"; "a.mkv.srt"].

Definition only_dry_nothing_to_remove : outcome unit :=
  @run_main platform true (onlyCmd 2 "a.mkv" "out.mkv") ["a.mkv"].


Definition setdefault_two_files : outcome unit :=
  @run_main platform false (setDefaultCmd 3 ["a.mkv"; "b.mkv"])
    ["a.mkv"; "b.mkv"].



Definition rename_flag (dryrun : bool) : outcome unit :=
  @dispatch platform dryrun runCmd (renameCmd "new-" ["a.mkv"])
    (mkState (P:=platform) ["a.mkv"] []).

End Sim.

(** ** Vocabulary for the behaviour of the whole [switch] *)

Section Footprint.

Context {P : Platform}.

(** A call of [mustParseFile] that did not return. *)
Definition is_failed_parse (e : event) : Prop :=
  match e with
  | EvMustParseFile _ None => True
  | _ => False
  end.

Definition is_stat (e : event) : Prop :=
  match e with
  | EvStat _ _ => True
  | _ => False
  end.

(** Neither a fatal log nor a call that ended the process. *)
Definition quiet (e : event) : Prop :=
  ~ is_fatal e /\ ~ is_failed_parse e.

(** How a computation may end: returning after quiet events only, or
    halted with the failed call of [mustParseFile] as its last event; it
    never exits on its own. *)
Definition ends_in_parse_or_returns {A : Type} (o : outcome A) : Prop :=
  match res o with
  | Returned _ => Forall quiet (events o)
  | Exited _ => False
  | Halted =>
      exists pre f,
        events o = pre ++ [EvMustParseFile f None] /\ Forall quiet pre
  end.

(** The file a call works on, for the three helpers that take a name. *)
Definition format_target (e : event) : option string :=
  match e with
  | EvFormat _ f _ _ => Some f
  | _ => None
  end.

Definition rename_target (e : event) : option string :=
  match e with
  | EvRename _ f _ _ => Some f
  | _ => None
  end.

Definition parse_target (e : event) : option string :=
  match e with
  | EvMustParseFile f _ => Some f
  | _ => None
  end.

(** The files that the calls selected by [sel] worked on, in order. *)
Definition visited (sel : event -> option string) (evs : list event)
  : list string :=
  flat_map (fun e => match sel e with
                     | Some f => [f]
                     | None => []
                     end) evs.

(** The lines written to the standard output. *)
Definition printed (evs : list event) : list string :=
  flat_map (fun e => match e with
                     | EvStdout line => [line]
                     | _ => []
                     end) evs.

(** The calls of [setdefault]: parsed file and track. *)
Definition setdefault_calls (evs : list event) : list (matroska * Z) :=
  flat_map (fun e => match e with
                     | EvSetdefault mkv t _ _ => [(mkv, t)]
                     | _ => []
                     end) evs.

(** The call carries the Runner [run] if it takes a Runner, and the flag
    [flag] if it takes the dry-run flag. *)
Definition carries (run : runner) (flag : bool) (e : event) : Prop :=
  match e with
  | EvExtract _ _ r _ _ => r = run
  | EvSubmux _ _ _ r _ _ => r = run
  | EvRemux _ _ r _ _ => r = run
  | EvSetdefault _ _ r _ => r = run
  | EvRename _ _ d _ => d = flag
  | _ => True
  end.

(** The calls and lines that the [case] of each subcommand can make. *)
Definition may_call (k : command) (e : event) : Prop :=
  match k, e with
  | versionCmd, EvStdout _ => True
  | mergeCmd _ _ _, EvRemux _ _ _ _ _ => True
  | remuxCmd _ _, EvRemux _ _ _ _ _ => True
  | onlyCmd _ _ _, (EvMustParseFile _ _ | EvExtract _ _ _ _ _
                    | EvSubmux _ _ _ _ _ _ | EvRemove _ _) => True
  | printCmd _ _, (EvFormat _ _ _ _ | EvStdout _) => True
  | renameCmd _ _, (EvStat _ _ | EvLog _ | EvRename _ _ _ _) => True
  | setDefaultCmd _ _, (EvStat _ _ | EvLog _ | EvMustParseFile _ _
                        | EvSetdefault _ _ _ _) => True
  | setDefaultByLangCmd _ _ _, (EvStat _ _ | EvLog _ | EvMustParseFile _ _
                                | EvTrackByLanguage _ _ _ _ _
                                | EvSetdefault _ _ _ _) => True
  | showCmd _ _, (EvStat _ _ | EvLog _ | EvMustParseFile _ _
                  | EvShow _ _) => True
  | _, _ => False
  end.




(** The whole run of [main] in terms of its [switch]: refused at start-up,
    or the [switch] followed, if it returned, by the closing report. *)
Definition run_of_switch (dryrun : bool) (k : command) (w : world)
  : outcome unit :=
  match requirements w with
  | (Some e, w') =>
      mkOutcome (Exited 1) (mkState w' [])
        [EvRequirements (Some e);
         EvFatal (log_header w' ++ "Requirements check: " ++ e)%string]
  | (None, w') =>
      let o := dispatch dryrun (runner_of dryrun) k (mkState w' []) in
      let errs := errors (final o) in
      match res o with
      | Returned _ =>
          mkOutcome (if any_failed errs then Exited 1 else Returned tt)
            (final o)
            (prologue dryrun ++ events o ++ error_lines errs ++
             (if any_failed errs then [EvFatal "Execution failed"] else []))
      | Exited c => mkOutcome (Exited c) (final o) (prologue dryrun ++ events o)
      | Halted => mkOutcome Halted (final o) (prologue dryrun ++ events o)
      end
  end.

End Footprint.

(** ** A platform whose requirements check fails *)

Module Bare.

Definition platform : Platform := {|
  world := Sim.disk;
  matroska := string;
  trackFileInfo := string;
  fname := fun tfi => tfi;
  BuildVersion := "dev";
  quote := fun f => (Sim.dquote ++ f ++ Sim.dquote)%string;
  log_header := Sim.sim_header;
  MustParse := Sim.sim_parse;
  requirements := fun d => (Some "mkvmerge: executable file not found", d);
  os_Stat := Sim.sim_Stat;
  os_Remove := Sim.sim_Remove;
  mustParseFile := Sim.sim_mustParseFile;
  extract := Sim.sim_extract;
  submux := fun input output only run tfi =>
              Sim.sim_write [input; tfi] output run;
  remux := fun inputs output run subs => Sim.sim_write inputs output run;
  format := fun mask f d => (((mask ++ f)%string, None), d);
  rename := Sim.sim_rename;
  setdefault := Sim.sim_setdefault;
  trackByLanguage := fun mkv langs ignore d =>
                       (Sim.sim_select (Sim.sim_tracks mkv) langs, d);
  show := fun mkv uid d => d
|}.


(** The runs used below. *)





Definition setdefault_run : outcome unit :=
  @run_process Sim.platform ["setdefault"; "3"; "a.mkv"; "b.mkv"]
    ["a.mkv"; "b.mkv"].

End Bare.

(** * Theorems *)

Unset Implicit Arguments.

Ltac unfold_calls :=
  unfold call_requirements, call_Remove, call_mustParseFile, call_extract,
    call_submux, call_remux, call_format, call_rename, call_setdefault,
    call_trackByLanguage, call_show, call_Stat.

Ltac unfold_monad :=
  unfold bind, call, ret, emit, append_error, log_Fatal, declare_errors.

(** ** [readable] is a filter *)

Section Readable.

Context {P : Platform}.

Lemma readable_from_spec (fnames acc : list string) (s : state) :
  readable_from fnames acc s =
  mkOutcome (Returned (acc ++ filter (stat_ok (st_world s)) fnames)) s
            (flat_map (stat_events (st_world s)) fnames).
Proof.
  revert acc. induction fnames as [|f rest IH]; intros acc; simpl.
  - unfold ret. now rewrite app_nil_r.
  - unfold bind, call_Stat, stat_ok, stat_events; simpl.
    destruct (os_Stat f (st_world s)) as [e|] eqn:E; simpl.
    + rewrite IH. reflexivity.
    + rewrite IH. simpl. now rewrite <- app_assoc.
Qed.

(** C9: for every list of names, [readable] returns the names whose
    [os.Stat] check succeeds, in their original order and as often as they
    occur (the list filtered by the check); it leaves the state as it was,
    and it logs the note for exactly the names whose check fails, none of
    which is returned. *)
Theorem readable_is_filter (fnames : list string) (s : state) :
  res (readable fnames s) = Returned (filter (stat_ok (st_world s)) fnames)
  /\ final (readable fnames s) = s
  /\ events (readable fnames s) = flat_map (stat_events (st_world s)) fnames
  /\ (forall f e, os_Stat f (st_world s) = Some e ->
        ~ In f (filter (stat_ok (st_world s)) fnames)
        /\ (In f fnames -> In (EvLog (skip_note f)) (events (readable fnames s))))
  /\ (forall f, os_Stat f (st_world s) = None ->
        count_occ string_dec (filter (stat_ok (st_world s)) fnames) f =
        count_occ string_dec fnames f).
Proof.
  unfold readable. rewrite readable_from_spec. simpl.
  split; [reflexivity|]. split; [reflexivity|]. split; [reflexivity|].
  split.
  - intros f e Hf. split.
    + intros Hin. apply filter_In in Hin. destruct Hin as [_ Hok].
      unfold stat_ok in Hok. rewrite Hf in Hok. discriminate.
    + intros Hin. apply in_flat_map. exists f. split; trivial.
      unfold stat_events. rewrite Hf. simpl. auto.
  - intros f Hf. induction fnames as [|g rest IH]; simpl; trivial.
    unfold stat_ok at 1. destruct (string_dec g f) as [->|Hne].
    + rewrite Hf. simpl. destruct (string_dec f f); [|contradiction].
      now rewrite IH.
    + destruct (os_Stat g (st_world s)); simpl; trivial.
      destruct (string_dec g f); [contradiction|]. exact IH.
Qed.

End Readable.

(** ** The frame of [main]: start-up and closing report *)

Section Frame.

Context {P : Platform}.

Lemma report_loop_spec (errs : list (option error)) (failed : bool) (s : state) :
  report_loop errs failed s =
  mkOutcome (Returned (failed || any_failed errs)) s (error_lines errs).
Proof.
  revert failed. induction errs as [|[e|] rest IH]; intros failed; simpl.
  - unfold ret. now rewrite orb_false_r.
  - unfold bind, emit; simpl. rewrite IH. simpl. now rewrite orb_true_r.
  - apply IH.
Qed.

Lemma report_spec (s : state) :
  report s =
  if any_failed (errors s)
  then mkOutcome (Exited 1) s
         (error_lines (errors s) ++ [EvFatal "Execution failed"])
  else mkOutcome (Returned tt) s (error_lines (errors s)).
Proof.
  unfold report, bind. rewrite report_loop_spec. simpl.
  destruct (any_failed (errors s)); simpl; trivial.
  unfold ret; simpl. now rewrite app_nil_r.
Qed.

Lemma collect_passed (dryrun : bool) (k : command) (s : state) (w : world) :
  requirements (st_world s) = (None, w) ->
  collect dryrun k s =
  let o := dispatch dryrun (runner_of dryrun) k (mkState w []) in
  mkOutcome (res o) (final o) (prologue dryrun ++ events o).
Proof.
  intros Hreq. unfold collect, startup, select_runner, prologue.
  unfold_calls. unfold_monad. rewrite Hreq. simpl.
  destruct dryrun; simpl;
    destruct (res (dispatch _ _ k _)); reflexivity.
Qed.

Lemma collect_refused (dryrun : bool) (k : command) (s : state) (w : world)
  (e : error) :
  requirements (st_world s) = (Some e, w) ->
  collect dryrun k s =
  mkOutcome (Exited 1) (mkState w (errors s))
    [EvRequirements (Some e);
     EvFatal (log_header w ++ "Requirements check: " ++ e)%string].
Proof.
  intros Hreq. unfold collect, startup. unfold_calls. unfold_monad.
  rewrite Hreq. reflexivity.
Qed.

Lemma main_after_collect (dryrun : bool) (k : command) (s : state) :
  res (collect dryrun k s) = Returned tt ->
  main dryrun k s =
  let c := collect dryrun k s in
  let r := report (final c) in
  mkOutcome (res r) (final r) (events c ++ events r).
Proof.
  intros Hret. unfold main, bind. rewrite Hret. reflexivity.
Qed.

End Frame.

(** ** The [only] pipeline *)

Section Only.

Context {P : Platform}.

(** The [case] of [only], once the input is parsed and [extract] has
    returned. *)
Lemma only_dispatch (dryrun : bool) (run : runner) (t : Z) (i o : string)
  (s : state) (mkv : matroska) (w1 w2 : world) (tfi : trackFileInfo)
  (xerr : option error) :
  mustParseFile i (st_world s) = (Some mkv, w1) ->
  extract mkv t run w1 = ((tfi, xerr), w2) ->
  dispatch dryrun run (onlyCmd t i o) s =
  match xerr with
  | Some e =>
      mkOutcome (Returned tt) (mkState w2 (errors s ++ [Some (Errorf i e)]))
        [EvMustParseFile i (Some mkv); EvExtract mkv t run tfi (Some e)]
  | None =>
      let sub := submux i o true run tfi w2 in
      let rem := os_Remove (fname tfi) (snd sub) in
      mkOutcome (Returned tt) (mkState (snd rem) (errors s ++ [fst sub]))
        [EvMustParseFile i (Some mkv); EvExtract mkv t run tfi None;
         EvSubmux i o true run tfi (fst sub); EvRemove (fname tfi) (fst rem)]
  end.
Proof.
  intros Hparse Hext. unfold dispatch. unfold_calls. unfold_monad.
  rewrite Hparse. simpl. rewrite Hext. simpl.
  destruct xerr as [e|]; simpl; trivial.
  destruct (submux i o true run tfi w2) as [serr w3]; simpl.
  destruct (os_Remove (fname tfi) w3) as [rerr w4]; simpl.
  reflexivity.
Qed.

(** The whole run of [only] when the requirements check passes, the input
    parses and the extraction succeeds. *)
Lemma only_run (dryrun : bool) (t : Z) (i o : string) (w w0 w1 w2 : world)
  (mkv : matroska) (tfi : trackFileInfo) :
  requirements w = (None, w0) ->
  mustParseFile i w0 = (Some mkv, w1) ->
  extract mkv t (runner_of dryrun) w1 = ((tfi, None), w2) ->
  let run := runner_of dryrun in
  let sub := submux i o true run tfi w2 in
  let rem := os_Remove (fname tfi) (snd sub) in
  run_main dryrun (onlyCmd t i o) w =
  mkOutcome
    (match fst sub with Some _ => Exited 1 | None => Returned tt end)
    (mkState (snd rem) [fst sub])
    (prologue dryrun ++
     [EvMustParseFile i (Some mkv); EvExtract mkv t run tfi None;
      EvSubmux i o true run tfi (fst sub); EvRemove (fname tfi) (fst rem)] ++
     verdict (fst sub)).
Proof.
  intros Hreq Hparse Hext run sub rem.
  assert (Hc : collect dryrun (onlyCmd t i o) (mkState w []) =
               mkOutcome (Returned tt) (mkState (snd rem) [fst sub])
                 (prologue dryrun ++
                  [EvMustParseFile i (Some mkv); EvExtract mkv t run tfi None;
                   EvSubmux i o true run tfi (fst sub);
                   EvRemove (fname tfi) (fst rem)])).
  { rewrite (collect_passed dryrun (onlyCmd t i o) (mkState w []) _ Hreq).
    cbv zeta.
    rewrite (only_dispatch dryrun (runner_of dryrun) t i o (mkState w0 [])
               _ _ _ _ _ Hparse Hext).
    reflexivity. }
  unfold run_main. rewrite main_after_collect; rewrite Hc; [|reflexivity].
  cbv zeta. simpl final. rewrite report_spec. simpl errors.
  destruct (fst sub) as [e|]; simpl; rewrite <- ?app_assoc; simpl;
    rewrite ?app_nil_r; reflexivity.
Qed.


(** C2: in [only], once step 2 is reached, [os.Remove] of the extracted
    file is the call right after [submux], whatever [submux] returned; what
    [os.Remove] returns goes nowhere: the collected errors are the single
    result of [submux], and the closing report and the exit status depend
    on that result alone.  The world at the end is the one [os.Remove]
    left. *)
Theorem only_cleanup_unconditional_and_silent (dryrun : bool) (t : Z)
  (i o : string) (w w0 w1 w2 w3 w4 : world) (mkv : matroska)
  (tfi : trackFileInfo) (serr rerr : option error) :
  requirements w = (None, w0) ->
  mustParseFile i w0 = (Some mkv, w1) ->
  extract mkv t (runner_of dryrun) w1 = ((tfi, None), w2) ->
  submux i o true (runner_of dryrun) tfi w2 = (serr, w3) ->
  os_Remove (fname tfi) w3 = (rerr, w4) ->
  let out := run_main dryrun (onlyCmd t i o) w in
  events out =
    prologue dryrun ++
    [EvMustParseFile i (Some mkv);
     EvExtract mkv t (runner_of dryrun) tfi None;
     EvSubmux i o true (runner_of dryrun) tfi serr;
     EvRemove (fname tfi) rerr] ++
    verdict serr
  /\ errors (final out) = [serr]
  /\ res out = match serr with Some _ => Exited 1 | None => Returned tt end
  /\ st_world (final out) = w4.
Proof.
  intros Hreq Hparse Hext Hsub Hrem out. subst out.
  rewrite (only_run dryrun t i o _ _ _ _ _ _ Hreq Hparse Hext). cbv zeta.
  rewrite Hsub. simpl fst. simpl snd. rewrite Hrem. simpl.
  repeat split.
Qed.

(** C10: with [--dry-run], [only] still calls [os.Remove] on the extracted
    file after step 2.  [extract] and [submux] get the fake Runner;
    [os.Remove] takes no Runner and acts on the world itself: the world the
    run ends in is the one [os.Remove] leaves. *)
Theorem only_removes_even_in_dry_run (t : Z) (i o : string)
  (w w0 w1 w2 : world) (mkv : matroska) (tfi : trackFileInfo) :
  requirements w = (None, w0) ->
  mustParseFile i w0 = (Some mkv, w1) ->
  extract mkv t fakeRunCmd w1 = ((tfi, None), w2) ->
  let sub := submux i o true fakeRunCmd tfi w2 in
  let rem := os_Remove (fname tfi) (snd sub) in
  let out := run_main true (onlyCmd t i o) w in
  (exists pre post,
     events out =
       pre ++ [EvExtract mkv t fakeRunCmd tfi None;
               EvSubmux i o true fakeRunCmd tfi (fst sub);
               EvRemove (fname tfi) (fst rem)] ++ post)
  /\ In (EvStdout "Dry-run mode: Will not modify any files.") (events out)
  /\ st_world (final out) = snd rem.
Proof.
  intros Hreq Hparse Hext sub rem out. subst out.
  rewrite (only_run true t i o _ _ _ _ _ _ Hreq Hparse Hext). cbv zeta. simpl.
  split; [|split; [auto|reflexivity]].
  exists [EvRequirements None;
          EvStdout "Dry-run mode: Will not modify any files.";
          EvMustParseFile i (Some mkv)].
  eexists. reflexivity.
Qed.

End Only.

(** ** The loops over the input files *)

Section Loops.

Context {P : Platform}.

Lemma events_bind (A B : Type) (m : M A) (k : A -> M B) (s : state) :
  events (bind m k s) =
  events (m s) ++
  match res (m s) with
  | Returned a => events (k a (final (m s)))
  | _ => []
  end.
Proof.
  unfold bind. destruct (res (m s)); simpl; trivial; now rewrite app_nil_r.
Qed.

Lemma final_bind (A B : Type) (m : M A) (k : A -> M B) (s : state) :
  final (bind m k s) =
  match res (m s) with
  | Returned a => final (k a (final (m s)))
  | _ => final (m s)
  end.
Proof. unfold bind. destruct (res (m s)); reflexivity. Qed.

Lemma for_range_events (Q : event -> Prop) (xs : list string)
  (body : string -> M ctl) :
  (forall x s, In x xs -> Forall Q (events (body x s))) ->
  forall s, Forall Q (events (for_range xs body s)).
Proof.
  induction xs as [|x rest IH]; intros Hbody s; simpl.
  - constructor.
  - rewrite events_bind. apply Forall_app. split.
    + apply Hbody. now left.
    + destruct (res (body x s)) as [[|]| |]; try constructor.
      apply IH. intros y s' Hy. apply Hbody. now right.
Qed.

Lemma for_range_final (I : state -> Prop) (xs : list string)
  (body : string -> M ctl) :
  (forall x s, In x xs -> I s -> I (final (body x s))) ->
  forall s, I s -> I (final (for_range xs body s)).
Proof.
  induction xs as [|x rest IH]; intros Hbody s Hs; simpl; trivial.
  rewrite final_bind.
  assert (Hx : I (final (body x s))) by (apply Hbody; [now left|trivial]).
  destruct (res (body x s)) as [[|]| |]; trivial.
  apply IH; trivial. intros y s' Hy. apply Hbody. now right.
Qed.

(** After [readable], a loop runs on the files that pass the check. *)
Lemma after_readable (A : Type) (fs : list string) (k : list string -> M A)
  (s : state) :
  bind (readable fs) k s =
  let o := k (filter (stat_ok (st_world s)) fs) s in
  mkOutcome (res o) (final o) (flat_map (stat_events (st_world s)) fs ++ events o).
Proof.
  unfold bind, readable. rewrite readable_from_spec. reflexivity.
Qed.

Lemma dispatch_filtered (dryrun : bool) (run : runner) (k : command)
  (fs : list string) (s : state) :
  filtered_files k = Some fs ->
  dispatch dryrun run k s =
  let o := for_range (filter (stat_ok (st_world s)) fs)
             (body_of dryrun run k) s in
  mkOutcome (res o) (final o) (flat_map (stat_events (st_world s)) fs ++ events o).
Proof.
  destruct k; simpl; intros Hfs; try discriminate;
    injection Hfs as <-; apply after_readable.
Qed.

Ltac run_body :=
  unfold body_of, print_body, rename_body, setDefault_body,
    setDefaultByLang_body, show_body;
  unfold_calls; unfold_monad; simpl;
  repeat match goal with
         | |- context [match ?x with _ => _ end] => destruct x; simpl
         end.

(** What one turn of a loop does concerns its own file only, and is never
    a fatal log. *)
Lemma body_events (dryrun : bool) (run : runner) (k : command) (x : string)
  (s : state) :
  Forall (fun e => ~ is_fatal e /\ (forall f, works_on f e -> f = x))
         (events (body_of dryrun run k x s)).
Proof.
  destruct k; run_body;
    repeat constructor; simpl; try tauto; intros; congruence.
Qed.

(** One turn of a loop appends to [errors] nothing, or one error that
    carries the name of its file. *)
Lemma body_errors (dryrun : bool) (run : runner) (k : command) (x : string)
  (s : state) :
  errors (final (body_of dryrun run k x s)) = errors s
  \/ exists e, errors (final (body_of dryrun run k x s)) =
               errors s ++ [Some (Errorf x e)].
Proof.
  destruct k; run_body; eauto.
Qed.

End Loops.

(** ** Unreadable input files *)

Section Readability.

Context {P : Platform}.

Lemma stat_events_shape (w : world) (fs : list string) :
  Forall (fun e => match e with
                   | EvStat _ _ | EvLog _ => True
                   | _ => False
                   end) (flat_map (stat_events w) fs).
Proof.
  induction fs as [|f rest IH]; simpl; [constructor|].
  apply Forall_app. split; trivial.
  unfold stat_events. destruct (os_Stat f w); repeat constructor.
Qed.

Lemma filter_stat_ok_twice (w : world) (fs : list string) :
  filter (stat_ok w) (filter (stat_ok w) fs) = filter (stat_ok w) fs.
Proof.
  induction fs as [|f rest IH]; simpl; trivial.
  destruct (stat_ok w f) eqn:E; simpl; trivial.
  rewrite E. now rewrite IH.
Qed.

End Readability.

(** ** [setdefaultbylang]: selection guards the mutation *)

Section Selection.

Context {P : Platform}.

Lemma split_at_absent (x : event) (l1 l2 pre post : list event) :
  l1 ++ l2 = pre ++ x :: post ->
  ~ In x l1 ->
  exists mid, pre = l1 ++ mid /\ l2 = mid ++ x :: post.
Proof.
  revert pre. induction l1 as [|a l1 IH]; intros pre Heq Hnot; simpl in *.
  - exists pre. split; trivial.
  - destruct pre as [|b pre]; simpl in Heq; injection Heq as -> Heq.
    + exfalso. apply Hnot. now left.
    + destruct (IH pre Heq) as [mid [-> ->]]; [tauto|].
      exists mid. split; reflexivity.
Qed.

(** The three ways one turn of the loop of [setdefaultbylang] can go. *)
Lemma bylang_body_cases (langs ignore : list string) (run : runner)
  (x : string) (s : state) :
  let b := setDefaultByLang_body langs ignore run x s in
  (res b = Halted /\ events b = [EvMustParseFile x None])
  \/ (exists m t e,
        res b = Returned Break
        /\ events b = [EvMustParseFile x (Some m);
                       EvTrackByLanguage m langs ignore t (Some e)]
        /\ errors (final b) = errors s ++ [Some (Errorf x e)])
  \/ (exists m t err,
        res b = Returned Next
        /\ events b = [EvMustParseFile x (Some m);
                       EvTrackByLanguage m langs ignore t None;
                       EvSetdefault m t run err]).
Proof.
  unfold setDefaultByLang_body. unfold_calls. unfold_monad. simpl.
  destruct (mustParseFile x (st_world s)) as [[m|] w1]; simpl.
  - destruct (trackByLanguage m langs ignore w1) as [[t [e|]] w2]; simpl.
    + right. left. exists m, t, e. repeat split.
    + right. right.
      destruct (setdefault m t run w2) as [[e|] w3]; simpl;
        eexists m, t, _; split; reflexivity.
  - left. split; reflexivity.
Qed.

Lemma bylang_loop (langs ignore : list string) (run : runner)
  (xs : list string) (s : state) :
  let out := for_range xs (setDefaultByLang_body langs ignore run) s in
  guarded_selection langs ignore xs (events out) (errors (final out)).
Proof.
  cbv zeta. revert s. induction xs as [|x rest IH]; intros s.
  - simpl. split; intros; destruct pre; discriminate.
  - simpl for_range. rewrite events_bind, final_bind.
    destruct (bylang_body_cases langs ignore run x s)
      as [[Hr He]|[(m & t & e & Hr & He & Herr)|(m & t & err & Hr & He)]];
      rewrite Hr, He.
    + split; intros pre; intros;
        destruct pre as [|? [|? ?]]; discriminate.
    + simpl. split.
      * intros pre; intros.
        destruct pre as [|? [|? [|? ?]]]; discriminate.
      * intros pre m0 l i t0 e0 post Heq.
        destruct pre as [|a [|b [|c pre]]]; try discriminate.
        injection Heq as Ha Hm Hl Hi Ht He0 Hpost. subst.
        split.
        -- exists [], x. repeat split; [now left|].
           rewrite Herr. apply in_or_app. right. now left.
        -- intros; discriminate.
    + destruct (IH (final (setDefaultByLang_body langs ignore run x s)))
        as [IH1 IH2].
      split.
      * intros pre m0 t0 r0 err0 post Heq.
        destruct pre as [|a [|b [|c pre]]]; simpl in Heq; try discriminate.
        -- injection Heq as Ha Hb Hm Ht Hr0 Herr Hpost. subst.
           exists [EvMustParseFile x (Some m0)]. reflexivity.
        -- injection Heq as Ha Hb Hc Heq. subst a b c.
           destruct (IH1 _ _ _ _ _ _ Heq) as [pre' ->].
           exists (EvMustParseFile x (Some m) ::
                   EvTrackByLanguage m langs ignore t None ::
                   EvSetdefault m t run err :: pre').
           reflexivity.
      * intros pre m0 l i t0 e0 post Heq.
        destruct pre as [|a [|b [|c pre]]]; simpl in Heq; try discriminate.
        injection Heq as Ha Hb Hc Heq. subst a b c.
        destruct (IH2 _ _ _ _ _ _ _ Heq) as [(pre' & f & -> & Hf & Herr) Hpost].
        split; trivial.
        exists (EvMustParseFile x (Some m) ::
                EvTrackByLanguage m langs ignore t None ::
                EvSetdefault m t run err :: pre'), f.
        repeat split; trivial. now right.
Qed.

(** C4: in every run of [setdefaultbylang], [setdefault] is called only
    right after [trackByLanguage] returned, without error, the track
    number it is called with, for the same parsed file; and when
    [trackByLanguage] returns an error for a file, the next call is not
    [setdefault], and the error behind the name of that file is among the
    collected errors. *)
Theorem setdefaultbylang_sets_only_selected (dryrun : bool) (run : runner)
  (langs ignore fs : list string) (s : state) :
  let out := dispatch dryrun run (setDefaultByLangCmd langs ignore fs) s in
  guarded_selection langs ignore fs (events out) (errors (final out)).
Proof.
  cbv zeta.
  rewrite (dispatch_filtered dryrun run
             (setDefaultByLangCmd langs ignore fs) fs s eq_refl).
  cbv zeta. simpl body_of. simpl events. simpl final.
  destruct (bylang_loop langs ignore run
              (filter (stat_ok (st_world s)) fs) s) as [L1 L2].
  pose proof (stat_events_shape (st_world s) fs) as Hshape.
  rewrite Forall_forall in Hshape.
  split.
  - intros pre m t r err post Heq.
    apply split_at_absent in Heq.
    + destruct Heq as [mid [-> Heq]].
      destruct (L1 _ _ _ _ _ _ Heq) as [pre' ->].
      exists (flat_map (stat_events (st_world s)) fs ++ pre').
      now rewrite app_assoc.
    + intros Hin. apply Hshape in Hin. exact Hin.
  - intros pre m l i t e post Heq.
    apply split_at_absent in Heq.
    + destruct Heq as [mid [-> Heq]].
      destruct (L2 _ _ _ _ _ _ _ Heq) as [(pre' & f & -> & Hf & Herr) Hpost].
      split; trivial.
      exists (flat_map (stat_events (st_world s)) fs ++ pre'), f.
      rewrite app_assoc. repeat split; trivial.
      apply filter_In in Hf. tauto.
    + intros Hin. apply Hshape in Hin. exact Hin.
Qed.

End Selection.

(** ** The closing report and the exit status *)

Section Report.

Context {P : Platform}.

Lemma dispatch_no_fatal (dryrun : bool) (run : runner) (k : command)
  (s : state) :
  Forall (fun e => ~ is_fatal e) (events (dispatch dryrun run k s)).
Proof.
  assert (Hloop : forall xs s',
            Forall (fun e => ~ is_fatal e)
                   (events (for_range xs (body_of dryrun run k) s'))).
  { intros xs s'. apply for_range_events. intros x s'' _.
    eapply Forall_impl; [|apply body_events]. intros ev [H _]. exact H. }
  assert (Hstat : forall fs,
            Forall (fun e => ~ is_fatal e)
                   (flat_map (stat_events (st_world s)) fs)).
  { intros fs. eapply Forall_impl; [|apply stat_events_shape].
    intros [] H; simpl in *; tauto. }
  destruct (filtered_files k) as [fs|] eqn:Hk.
  - rewrite (dispatch_filtered dryrun run k fs s Hk). cbv zeta. simpl.
    apply Forall_app. split; [apply Hstat | apply Hloop].
  - destruct k; try discriminate; try apply Hloop;
      unfold dispatch; unfold_calls; unfold_monad; simpl;
      repeat match goal with
             | |- context [match ?x with _ => _ end] => destruct x; simpl
             end;
      repeat constructor; simpl; tauto.
Qed.








End Report.

(** ** The dry-run flag and the [remux] subcommand *)

Section Dry_run.

Context {P : Platform}.

Lemma dispatch_flag_irrelevant (k : command) :
  is_rename k = false -> flag_only_through_runner k.
Proof.
  intros Hk d1 d2 run s. destruct k; try discriminate; reflexivity.
Qed.

(** C3, amended: the dry-run flag reaches the [switch] in two ways.  It
    selects the Runner, once, with the notice printed when the fake one is
    chosen; for every subcommand other than [rename] nothing else depends
    on the flag: with the same Runner the [switch] does the same whatever
    the flag.  [rename] is handed the flag itself as its third argument,
    and no Runner. *)
Theorem dry_run_is_the_runner_except_for_rename (k : command) :
  is_rename k = false ->
  flag_only_through_runner k
  /\ (forall dryrun s w,
        requirements (st_world s) = (None, w) ->
        collect dryrun k s =
        let o := dispatch false (runner_of dryrun) k (mkState w []) in
        mkOutcome (res o) (final o) (prologue dryrun ++ events o))
  /\ (forall mask fs dryrun r1 r2 s,
        dispatch dryrun r1 (renameCmd mask fs) s =
        dispatch dryrun r2 (renameCmd mask fs) s
        /\ Forall (fun e => match e with
                            | EvRename _ _ flag _ => flag = dryrun
                            | _ => True
                            end)
                  (events (dispatch dryrun r1 (renameCmd mask fs) s))).
Proof.
  intros Hk. split; [now apply dispatch_flag_irrelevant|]. split.
  - intros dryrun s w Hreq.
    rewrite (collect_passed dryrun k s w Hreq). cbv zeta.
    now rewrite (dispatch_flag_irrelevant k Hk dryrun false).
  - intros mask fs dryrun r1 r2 s. split; [reflexivity|].
    rewrite (dispatch_filtered dryrun r1 (renameCmd mask fs) fs s eq_refl).
    cbv zeta. cbn [events]. apply Forall_app. split.
    + eapply Forall_impl; [|apply stat_events_shape].
      intros [] H; simpl in *; tauto.
    + apply for_range_events. intros x s' _.
      unfold body_of, rename_body. unfold_calls. unfold_monad. simpl.
      destruct (rename mask x dryrun (st_world s')) as [[e|] w'];
        repeat constructor.
Qed.

(** C8: for every input, output and Runner, [remux] and [merge] of the
    one-element list with that input and [--subs] true do the same: one
    call of the helper [remux] on that list, the output, the Runner and
    [true], whose result is collected. *)
Theorem remux_is_merge_of_one_input (dryrun : bool) (run : runner)
  (i o : string) (s : state) (w : world) :
  dispatch dryrun run (remuxCmd i o) s =
  dispatch dryrun run (mergeCmd o true [i]) s
  /\ run_main dryrun (remuxCmd i o) w = run_main dryrun (mergeCmd o true [i]) w
  /\ events (dispatch dryrun run (remuxCmd i o) s) =
     [EvRemux [i] o run true (fst (remux [i] o run true (st_world s)))]
  /\ errors (final (dispatch dryrun run (remuxCmd i o) s)) =
     errors s ++ [fst (remux [i] o run true (st_world s))].
Proof.
  split; [reflexivity|]. split; [reflexivity|].
  unfold dispatch. unfold_calls. unfold_monad. simpl.
  destruct (remux [i] o run true (st_world s)); simpl. split; reflexivity.
Qed.

End Dry_run.

(** ** Failure of one file among several *)

Section Isolation.

Context {P : Platform}.

(** When selection fails on a file, the loop of [setdefaultbylang] ends
    there: the files after it are neither parsed nor changed. *)
Lemma bylang_break_drops_rest (langs ignore : list string) (run : runner)
  (x : string) (rest : list string) (s : state) (m : matroska)
  (w1 w2 : world) (t : Z) (e : error) :
  mustParseFile x (st_world s) = (Some m, w1) ->
  trackByLanguage m langs ignore w1 = ((t, Some e), w2) ->
  for_range (x :: rest) (setDefaultByLang_body langs ignore run) s =
  mkOutcome (Returned tt) (mkState w2 (errors s ++ [Some (Errorf x e)]))
    [EvMustParseFile x (Some m); EvTrackByLanguage m langs ignore t (Some e)].
Proof.
  intros Hparse Hsel. simpl for_range. unfold setDefaultByLang_body.
  unfold_calls. unfold_monad. rewrite Hparse. simpl. rewrite Hsel.
  reflexivity.
Qed.

End Isolation.

(** ** Runs on the concrete platform *)

Section Runs.

Local Existing Instance Sim.platform.

(** C1 (defect: the loop ends at the first failed selection): [setdefaultbylang] on
    [a.mkv] and [b.mkv], both readable, with the preference [eng]:
    selection fails on [a.mkv], which has no such track, and the run ends
    there; [b.mkv], which has one, is never parsed.  [setdefault] on the
    same two files goes on to [b.mkv] after the failure on [a.mkv]. *)
Theorem setdefaultbylang_abandons_remaining_files :
  Sim.bylang_two_files =
    mkOutcome (Exited 1)
      (mkState ["a.mkv"; "b.mkv"] [Some "a.mkv: no matching track"])
      [EvRequirements None; EvStat "a.mkv" None; EvStat "b.mkv" None;
       EvMustParseFile "a.mkv" (Some "a.mkv");
       EvTrackByLanguage "a.mkv" ["eng"] [] 0 (Some "no matching track");
       EvLog "a.mkv: no matching track"; EvFatal "Execution failed"]
  /\ (forall mkv, ~ In (EvMustParseFile "b.mkv" mkv)
                       (events Sim.bylang_two_files))
  /\ trackByLanguage "b.mkv" ["eng"] [] ["a.mkv"; "b.mkv"] =
     ((2%Z, None), ["a.mkv"; "b.mkv"])
  /\ events Sim.setdefault_two_files =
     [EvRequirements None; EvStat "a.mkv" None; EvStat "b.mkv" None;
      EvMustParseFile "a.mkv" (Some "a.mkv");
      EvSetdefault "a.mkv" 3 runCmd (Some "no such track");
      EvMustParseFile "b.mkv" (Some "b.mkv");
      EvSetdefault "b.mkv" 3 runCmd None;
      EvLog "a.mkv: no such track"; EvFatal "Execution failed"].
Proof.
  split; [vm_compute; reflexivity|].
  split; [|split; vm_compute; reflexivity].
  intros mkv Hin. vm_compute in Hin.
  repeat (destruct Hin as [Hin|Hin]; [discriminate|]). exact Hin.
Qed.

(** C3, as stated, fails for [rename]: with the same Runner, the call of
    [rename] gets the flag, and here the file is renamed or not with it. *)
Lemma rename_takes_the_flag :
  ~ flag_only_through_runner (renameCmd "new-" ["a.mkv"])
  /\ events (Sim.rename_flag true) =
     [EvStat "a.mkv" None; EvRename "new-" "a.mkv" true None]
  /\ events (Sim.rename_flag false) =
     [EvStat "a.mkv" None; EvRename "new-" "a.mkv" false None]
  /\ st_world (final (Sim.rename_flag true)) = ["a.mkv"]
  /\ st_world (final (Sim.rename_flag false)) = ["new-a.mkv"].
Proof.
  split; [|repeat split].
  intros H.
  specialize (H true false runCmd (mkState (P:=Sim.platform) ["a.mkv"] [])).
  vm_compute in H. discriminate.
Qed.


(** A dry run of [only] with nothing to remove: [os.Remove] fails and the
    run still succeeds. *)
Lemma only_cleanup_witness :
  events Sim.only_dry_nothing_to_remove =
    prologue true ++
    [EvMustParseFile "a.mkv" (Some "a.mkv");
     EvExtract "a.mkv" 2 fakeRunCmd "a.mkv.srt" None;
     EvSubmux "a.mkv" "out.mkv" true fakeRunCmd "a.mkv.srt" None;
     EvRemove "a.mkv.srt" (Some "remove a.mkv.srt: no such file or directory")]
    ++ verdict None
  /\ errors (final Sim.only_dry_nothing_to_remove) = [None]
  /\ res Sim.only_dry_nothing_to_remove = Returned tt
  /\ st_world (final Sim.only_dry_nothing_to_remove) = ["a.mkv"].
Proof.
  exact (only_cleanup_unconditional_and_silent (P:=Sim.platform)
           true 2 "a.mkv" "out.mkv"
           ["a.mkv"] ["a.mkv"] ["a.mkv"] ["a.mkv"] ["a.mkv"] ["a.mkv"]
           "a.mkv" "a.mkv.srt" None
           (Some "remove a.mkv.srt: no such file or directory")
           eq_refl eq_refl eq_refl eq_refl eq_refl).
Defined.


(** A dry run of [only] while a file with the name of the extracted track
    is on the disk: the dry run deletes it. *)
Lemma only_dry_run_removal_witness :
  (exists pre post,
     events Sim.only_dry =
       pre ++ [EvExtract "a.mkv" 2 fakeRunCmd "a.mkv.srt" None;
               EvSubmux "a.mkv" "out.mkv" true fakeRunCmd "a.mkv.srt" None;
               EvRemove "a.mkv.srt" None] ++ post)
  /\ In (EvStdout "Dry-run mode: Will not modify any files.")
        (events Sim.only_dry)
  /\ st_world (final Sim.only_dry) = ["a.mkv"].
Proof.
  exact (only_removes_even_in_dry_run (P:=Sim.platform)
           2 "a.mkv" "out.mkv"
           ["a.mkv"; "a.mkv.srt"] ["a.mkv"; "a.mkv.srt"]
           ["a.mkv"; "a.mkv.srt"] ["a.mkv"; "a.mkv.srt"]
           "a.mkv" "a.mkv.srt" eq_refl eq_refl eq_refl).
Defined.

(** [setdefault] takes the dry-run flag through the Runner only. *)
Lemma dry_run_witness :
  is_rename (setDefaultCmd 2 ["b.mkv"]) = false
  /\ flag_only_through_runner (setDefaultCmd 2 ["b.mkv"]).
Proof.
  split; [reflexivity|].
  exact (proj1 (dry_run_is_the_runner_except_for_rename (P:=Sim.platform)
                  (setDefaultCmd 2 ["b.mkv"]) eq_refl)).
Defined.

End Runs.

(** ** The whole run in terms of the [switch] *)

Section Whole_run.

Context {P : Platform}.

Lemma res_bind (A B : Type) (m : M A) (k : A -> M B) (s : state) :
  res (bind m k s) =
  match res (m s) with
  | Returned a => res (k a (final (m s)))
  | Exited c => Exited c
  | Halted => Halted
  end.
Proof. unfold bind. destruct (res (m s)); reflexivity. Qed.

Lemma run_main_unfolds (dryrun : bool) (k : command) (w : world) :
  run_main dryrun k w = run_of_switch dryrun k w.
Proof.
  unfold run_main, run_of_switch.
  destruct (requirements w) as [[e|] w'] eqn:Hreq.
  - unfold main, bind.
    rewrite (collect_refused dryrun k (mkState w []) w' e Hreq). reflexivity.
  - unfold main, bind.
    rewrite (collect_passed dryrun k (mkState w []) w' Hreq). cbv zeta.
    cbn [res final events].
    destruct (res (dispatch dryrun (runner_of dryrun) k (mkState w' [])))
      as [[]| |]; trivial.
    rewrite report_spec.
    destruct (any_failed _); cbn [res final events];
      rewrite <- ?app_assoc, ?app_nil_r; reflexivity.
Qed.

(** With an accepted command line the process is the run of the parsed
    invocation. *)
Lemma process_parsed (args : list string) (dryrun : bool) (k : command)
  (w : world) :
  MustParse args = Parsed dryrun k ->
  run_process args w = run_main dryrun k w.
Proof.
  intros Hp. unfold run_process, run_main, process, main, collect.
  rewrite Hp. unfold bind.
  destruct (res (startup (mkState w []))); trivial.
  destruct (res (select_runner dryrun (final (startup (mkState w [])))));
    trivial.
  cbn [res final events].
  destruct (res (declare_errors _)); trivial.
  cbn [res final events].
  destruct (res (dispatch _ _ _ _)); cbn [res final events]; trivial.
  now rewrite !app_assoc.
Qed.

Lemma process_refused (args : list string) (w w' : world) (e : error) :
  requirements w = (Some e, w') ->
  run_process args w =
  mkOutcome (Exited 1) (mkState w' [])
    [EvRequirements (Some e);
     EvFatal (log_header w' ++ "Requirements check: " ++ e)%string].
Proof.
  intros Hreq. unfold run_process, process, startup.
  unfold_calls. unfold_monad. simpl. rewrite Hreq. reflexivity.
Qed.

Lemma process_parser_exit (args : list string) (w w' : world) (code : Z) :
  requirements w = (None, w') ->
  MustParse args = ParserExit code ->
  run_process args w =
  mkOutcome (Exited code) (mkState w' []) [EvRequirements None].
Proof.
  intros Hreq Hp. unfold run_process, process, startup.
  unfold_calls. unfold_monad. simpl. rewrite Hreq, Hp. reflexivity.
Qed.

(** When the requirements check fails, the process writes one fatal line,
    the header of the logger (its flags are still the initial ones)
    followed by [Requirements check: ] and the error, and exits with
    status 1: whatever the arguments, the argument parser is not reached,
    no helper is called, no file is looked at, and the world is the one
    the check left.  The same holds of the run of any parsed
    invocation. *)
Theorem requirements_failure_stops_everything (args : list string)
  (dryrun : bool) (k : command) (w w' : world) (e : error) :
  requirements w = (Some e, w') ->
  run_process args w =
    mkOutcome (Exited 1) (mkState w' [])
      [EvRequirements (Some e);
       EvFatal (log_header w' ++ "Requirements check: " ++ e)%string]
  /\ run_main dryrun k w = run_process args w.
Proof.
  intros Hreq. rewrite (process_refused args w w' e Hreq).
  split; trivial.
  rewrite run_main_unfolds. unfold run_of_switch. now rewrite Hreq.
Qed.

End Whole_run.

(** ** What every call of a run has in common *)

Section Calls.

Context {P : Platform}.

Ltac run_body :=
  unfold body_of, print_body, rename_body, setDefault_body,
    setDefaultByLang_body, show_body;
  unfold_calls; unfold_monad; simpl;
  repeat match goal with
         | |- context [match ?x with _ => _ end] => destruct x; simpl
         end.

Ltac run_case :=
  unfold dispatch; unfold_calls; unfold_monad; simpl;
  repeat match goal with
         | |- context [match ?x with _ => _ end] => destruct x; simpl
         end.

Lemma stats_satisfy (Q : event -> Prop) (w : world) (fs : list string) :
  (forall f err, Q (EvStat f err)) ->
  (forall line, Q (EvLog line)) ->
  Forall Q (flat_map (stat_events w) fs).
Proof.
  intros Hs Hl. eapply Forall_impl; [|apply stat_events_shape].
  intros [] H; simpl in H; try contradiction; auto.
Qed.

Lemma body_carries (dryrun : bool) (run : runner) (k : command) (x : string)
  (s : state) :
  Forall (carries run dryrun) (events (body_of dryrun run k x s)).
Proof. destruct k; run_body; repeat constructor. Qed.

Lemma dispatch_carries (dryrun : bool) (run : runner) (k : command)
  (s : state) :
  Forall (carries run dryrun) (events (dispatch dryrun run k s)).
Proof.
  assert (Hloop : forall xs s',
            Forall (carries run dryrun)
                   (events (for_range xs (body_of dryrun run k) s'))).
  { intros xs s'. apply for_range_events. intros x s'' _.
    apply body_carries. }
  destruct (filtered_files k) as [fs|] eqn:Hk.
  - rewrite (dispatch_filtered dryrun run k fs s Hk). cbv zeta. cbn [events].
    apply Forall_app. split; [|apply Hloop].
    apply stats_satisfy; intros; exact I.
  - destruct k; try discriminate; try apply Hloop;
      run_case; repeat constructor.
Qed.

(** One Runner for the whole run: every call of [extract], [submux],
    [remux] and [setdefault] made by a run gets the Runner chosen from the
    flag at the start (the fake one exactly when [--dry-run] is given),
    and every call of [rename] gets the flag. *)
Theorem one_runner_per_run (dryrun : bool) (k : command) (w : world) :
  Forall (carries (runner_of dryrun) dryrun) (events (run_main dryrun k w)).
Proof.
  rewrite run_main_unfolds. unfold run_of_switch.
  destruct (requirements w) as [[e|] w'].
  - repeat constructor.
  - cbv zeta.
    assert (Hp : Forall (carries (runner_of dryrun) dryrun) (prologue dryrun))
      by (unfold prologue; destruct dryrun; repeat constructor).
    assert (Hd := dispatch_carries dryrun (runner_of dryrun) k (mkState w' [])).
    assert (Hr : forall errs,
              Forall (carries (runner_of dryrun) dryrun) (error_lines errs)).
    { intros errs. induction errs as [|[e|] rest IH]; simpl;
        [constructor | constructor; [exact I | exact IH] | exact IH]. }
    destruct (res (dispatch dryrun (runner_of dryrun) k (mkState w' [])));
      cbn [events]; repeat (apply Forall_app; split); trivial.
    destruct (any_failed _); repeat constructor.
Qed.

Lemma body_may_call (dryrun : bool) (run : runner) (k : command)
  (fs : list string) (x : string) (s : state) :
  looped_files k = Some fs \/ filtered_files k = Some fs ->
  Forall (may_call k) (events (body_of dryrun run k x s)).
Proof.
  intros Hk.
  destruct k; simpl in Hk; try (destruct Hk; discriminate);
    run_body; repeat constructor.
Qed.

(** Each subcommand calls only its own helpers.  [version] only prints;
    [print] only calls [format] and prints; [show] only checks, parses and
    calls [show]; [merge] and [remux] only call [remux]; [os.Remove] is
    called by [only] alone, [os.Stat] (with its note) by [rename],
    [setdefault], [setdefaultbylang] and [show] alone; and the [switch]
    never logs fatally. *)
Theorem subcommand_calls_only_its_helpers (dryrun : bool) (run : runner)
  (k : command) (s : state) :
  Forall (may_call k) (events (dispatch dryrun run k s)).
Proof.
  destruct (filtered_files k) as [fs|] eqn:Hk.
  - rewrite (dispatch_filtered dryrun run k fs s Hk). cbv zeta. cbn [events].
    apply Forall_app. split.
    + apply stats_satisfy; intros; destruct k; try discriminate; exact I.
    + apply for_range_events. intros x s' _.
      apply (body_may_call dryrun run k fs). now right.
  - destruct k; try discriminate.
    + run_case; repeat constructor.
    + run_case; repeat constructor.
    + run_case; repeat constructor.
    + apply for_range_events. intros x s' _.
      apply (body_may_call dryrun run (printCmd printFormat printFiles)
               printFiles). now left.
    + run_case; repeat constructor.
Qed.

End Calls.

(** ** How a run ends *)

Section Endings.

Context {P : Platform}.

Ltac quiet_list :=
  repeat constructor; unfold quiet; simpl; tauto.

Lemma ret_ends (A : Type) (a : A) (s : state) :
  ends_in_parse_or_returns (ret a s).
Proof. unfold ends_in_parse_or_returns, ret. simpl. constructor. Qed.

Lemma emit_ends (e : event) (s : state) :
  quiet e -> ends_in_parse_or_returns (emit e s).
Proof.
  intros He. unfold ends_in_parse_or_returns, emit. simpl.
  constructor; [exact He | constructor].
Qed.

Lemma append_error_ends (err : option error) (s : state) :
  ends_in_parse_or_returns (append_error err s).
Proof. unfold ends_in_parse_or_returns, append_error. simpl. constructor. Qed.

Lemma call_ends (A : Type) (f : world -> A * world) (ev : A -> event)
  (s : state) :
  (forall a, quiet (ev a)) -> ends_in_parse_or_returns (call f ev s).
Proof.
  intros Hq. unfold ends_in_parse_or_returns, call.
  destruct (f (st_world s)) as [a w]. simpl.
  constructor; [apply Hq | constructor].
Qed.

Lemma parse_ends (f : string) (s : state) :
  ends_in_parse_or_returns (call_mustParseFile f s).
Proof.
  unfold ends_in_parse_or_returns, call_mustParseFile, bind, call, ret.
  destruct (mustParseFile f (st_world s)) as [[m|] w]; simpl.
  - quiet_list.
  - exists [], f. split; [reflexivity | constructor].
Qed.

Lemma bind_ends (A B : Type) (m : M A) (k : A -> M B) (s : state) :
  ends_in_parse_or_returns (m s) ->
  (forall a s', ends_in_parse_or_returns (k a s')) ->
  ends_in_parse_or_returns (bind m k s).
Proof.
  intros Hm Hk. unfold ends_in_parse_or_returns in *.
  rewrite res_bind, events_bind.
  destruct (res (m s)) as [a| |]; try contradiction.
  - specialize (Hk a (final (m s))).
    destruct (res (k a (final (m s)))); try contradiction.
    + apply Forall_app. split; trivial.
    + destruct Hk as (pre & f & -> & Hpre).
      exists (events (m s) ++ pre), f. rewrite app_assoc. split; trivial.
      apply Forall_app. split; trivial.
  - destruct Hm as (pre & f & -> & Hpre). exists pre, f.
    rewrite app_nil_r. split; trivial.
Qed.

Ltac ends_step :=
  first [ apply ret_ends
        | apply append_error_ends
        | apply parse_ends
        | apply emit_ends; unfold quiet; simpl; tauto
        | apply call_ends; intros; unfold quiet; simpl; tauto
        | apply bind_ends; [|intros]
        | match goal with
          | |- ends_in_parse_or_returns
                 (match ?x with _ => _ end _) => destruct x
          end ].

Ltac ends_all :=
  unfold body_of, print_body, rename_body, setDefault_body,
    setDefaultByLang_body, show_body, dispatch;
  unfold call_requirements, call_Remove, call_extract,
    call_submux, call_remux, call_format, call_rename, call_setdefault,
    call_trackByLanguage, call_show;
  repeat ends_step.

Lemma body_ends (dryrun : bool) (run : runner) (k : command) (x : string)
  (s : state) :
  ends_in_parse_or_returns (body_of dryrun run k x s).
Proof. destruct k; ends_all. Qed.

Lemma for_range_ends (xs : list string) (body : string -> M ctl) :
  (forall x s, ends_in_parse_or_returns (body x s)) ->
  forall s, ends_in_parse_or_returns (for_range xs body s).
Proof.
  intros Hbody. induction xs as [|x rest IH]; intros s; simpl.
  - unfold ends_in_parse_or_returns, ret. simpl. constructor.
  - apply bind_ends; [apply Hbody|].
    intros [] s'; [apply IH|].
    unfold ends_in_parse_or_returns, ret. simpl. constructor.
Qed.

Lemma dispatch_ends (dryrun : bool) (run : runner) (k : command) (s : state) :
  ends_in_parse_or_returns (dispatch dryrun run k s).
Proof.
  assert (Hloop : forall xs s',
            ends_in_parse_or_returns
              (for_range xs (body_of dryrun run k) s')).
  { intros xs s'. apply for_range_ends. intros x s''. apply body_ends. }
  destruct (filtered_files k) as [fs|] eqn:Hk.
  - assert (Hd : dispatch dryrun run k s =
                 bind (readable fs)
                      (fun fnames => for_range fnames (body_of dryrun run k)) s)
      by (destruct k; try discriminate; injection Hk as <-; reflexivity).
    rewrite Hd. apply bind_ends; [|intros; apply Hloop].
    unfold readable. rewrite readable_from_spec.
    unfold ends_in_parse_or_returns. simpl.
    eapply Forall_impl; [|apply stat_events_shape].
    intros [] H; simpl in H; try contradiction; unfold quiet; simpl; tauto.
  - destruct k; try discriminate; try apply Hloop; ends_all.
Qed.

(** The run of a parsed invocation ends in one of three ways. *)
Lemma run_main_ends (dryrun : bool) (k : command) (w : world) :
  let out := run_main dryrun k w in
  match res out with
  | Returned _ => Forall quiet (events out)
  | Exited c =>
      c = 1%Z
      /\ exists pre line,
           events out = pre ++ [EvFatal line] /\ Forall quiet pre
           /\ (line = "Execution failed"
               \/ exists e w',
                    line = (log_header w' ++ "Requirements check: " ++ e)%string)
  | Halted =>
      exists pre f,
        events out = pre ++ [EvMustParseFile f None] /\ Forall quiet pre
  end.
Proof.
  cbv zeta. rewrite run_main_unfolds. unfold run_of_switch.
  destruct (requirements w) as [[e|] w'].
  - simpl. split; trivial.
    exists [EvRequirements (Some e)],
           (log_header w' ++ "Requirements check: " ++ e)%string.
    split; [reflexivity|]. split; [quiet_list|].
    right. exists e, w'. reflexivity.
  - cbv zeta.
    assert (Hp : Forall quiet (prologue dryrun))
      by (unfold prologue; destruct dryrun; quiet_list).
    assert (Hr : forall errs, Forall quiet (error_lines errs)).
    { intros errs. induction errs as [|[e|] rest IH]; simpl;
        [constructor | constructor; [unfold quiet; simpl; tauto | exact IH]
        | exact IH]. }
    pose proof (dispatch_ends dryrun (runner_of dryrun) k (mkState w' []))
      as Hd.
    unfold ends_in_parse_or_returns in Hd.
    destruct (res (dispatch dryrun (runner_of dryrun) k (mkState w' [])));
      try contradiction; cbn [res events].
    + destruct (any_failed _).
      * split; trivial.
        eexists _, "Execution failed". rewrite !app_assoc.
        split; [reflexivity|]. split; [|now left].
        rewrite <- app_assoc. repeat (apply Forall_app; split); trivial.
      * rewrite app_nil_r. repeat (apply Forall_app; split); trivial.
    + destruct Hd as (pre & f & -> & Hpre).
      exists (prologue dryrun ++ pre), f. rewrite app_assoc. split; trivial.
      apply Forall_app. split; trivial.
Qed.

(** The four ways the process ends.  It returns from [main] (exit status
    0) on an accepted command line, without any fatal log or failed
    parse.  Or it exits through a fatal log, always with status 1, that
    log being its last event and the only one: the line [Execution failed]
    or, stamped, the failed requirements check.  Or it exits inside the
    argument parser, with the status the parser chose and nothing done but
    the requirements check.  Or it is ended inside [mustParseFile], whose
    call is then the last event: nothing is logged about the errors
    collected so far. *)
Theorem process_ends_in_one_of_four_ways (args : list string) (w : world) :
  let out := run_process args w in
  match res out with
  | Returned _ =>
      (exists dryrun k, MustParse args = Parsed dryrun k)
      /\ Forall quiet (events out)
  | Exited c =>
      (c = 1%Z
       /\ exists pre line,
            events out = pre ++ [EvFatal line] /\ Forall quiet pre
            /\ (line = "Execution failed"
                \/ exists e w',
                     line =
                     (log_header w' ++ "Requirements check: " ++ e)%string))
      \/ (MustParse args = ParserExit c
          /\ events out = [EvRequirements None])
  | Halted =>
      exists pre f,
        events out = pre ++ [EvMustParseFile f None] /\ Forall quiet pre
  end.
Proof.
  cbv zeta. destruct (MustParse args) as [dryrun k|code] eqn:Hp.
  - rewrite (process_parsed args dryrun k w Hp).
    pose proof (run_main_ends dryrun k w) as H. cbv zeta in H.
    destruct (res (run_main dryrun k w)); eauto.
  - destruct (requirements w) as [[e|] w'] eqn:Hreq.
    + rewrite (process_refused args w w' e Hreq). simpl. left.
      split; trivial.
      exists [EvRequirements (Some e)],
             (log_header w' ++ "Requirements check: " ++ e)%string.
      split; [reflexivity|]. split; [quiet_list|].
    right. exists e, w'. reflexivity.
    + rewrite (process_parser_exit args w w' code Hreq Hp). simpl.
      right. split; reflexivity.
Qed.

End Endings.

(** ** Which files a loop visits *)

Section Visits.

Context {P : Platform}.

(** A loop whose body never breaks and never exits, and whose calls
    selected by [pr] are [g x] for the file [x] (or, when the body is
    halted, possibly none): if the loop returns it made those calls for
    every file in order, otherwise for a prefix of the files. *)
Lemma for_range_collects (B : Type) (pr : event -> list B) (g : string -> B)
  (xs : list string) (body : string -> M ctl) :
  (forall x s,
     match res (body x s) with
     | Returned Next => flat_map pr (events (body x s)) = [g x]
     | Returned Break => False
     | Exited _ => False
     | Halted => flat_map pr (events (body x s)) = [g x]
                 \/ flat_map pr (events (body x s)) = []
     end) ->
  forall s,
    match res (for_range xs body s) with
    | Returned _ => flat_map pr (events (for_range xs body s)) = map g xs
    | _ => exists rest,
             map g xs = flat_map pr (events (for_range xs body s)) ++ rest
    end.
Proof.
  intros Hbody. induction xs as [|x rest IH]; intros s.
  - reflexivity.
  - simpl for_range. rewrite res_bind, events_bind, flat_map_app.
    specialize (Hbody x s).
    destruct (res (body x s)) as [[|]| |]; try contradiction.
    + specialize (IH (final (body x s))). rewrite Hbody.
      destruct (res (for_range rest body (final (body x s)))).
      * simpl. now rewrite IH.
      * destruct IH as [tl IH]. exists tl. simpl. now rewrite IH.
      * destruct IH as [tl IH]. exists tl. simpl. now rewrite IH.
    + simpl. rewrite app_nil_r. destruct Hbody as [-> | ->].
      * exists (map g rest). reflexivity.
      * exists (g x :: map g rest). reflexivity.
Qed.

Lemma stats_not_collected (B : Type) (pr : event -> list B) (w : world)
  (fs : list string) :
  (forall f err, pr (EvStat f err) = []) ->
  (forall line, pr (EvLog line) = []) ->
  flat_map pr (flat_map (stat_events w) fs) = [].
Proof.
  intros Hs Hl. induction fs as [|f rest IH]; simpl; trivial.
  rewrite flat_map_app, IH, app_nil_r.
  unfold stat_events. destruct (os_Stat f w); simpl;
    rewrite ?Hs, ?Hl; reflexivity.
Qed.

Lemma print_body_spec (mask x : string) (s : state) :
  print_body mask x s =
  let r := format mask x (st_world s) in
  match snd (fst r) with
  | Some e =>
      mkOutcome (Returned Next)
        (mkState (snd r) (errors s ++ [Some (Errorf x e)]))
        [EvFormat mask x (fst (fst r)) (Some e)]
  | None =>
      mkOutcome (Returned Next) (mkState (snd r) (errors s))
        [EvFormat mask x (fst (fst r)) None; EvStdout (fst (fst r))]
  end.
Proof.
  unfold print_body. unfold_calls. unfold_monad.
  destruct (format mask x (st_world s)) as [[out [e|]] w]; reflexivity.
Qed.

Lemma print_loop_visits (dryrun : bool) (run : runner)
  (mask : string) (fs : list string) (s : state) :
  let out := dispatch dryrun run (printCmd mask fs) s in
  res out = Returned tt
  /\ visited format_target (events out) = fs
  /\ length (printed (events out)) + length (errors (final out)) =
     length fs + length (errors s).
Proof.
  cbv zeta. simpl dispatch. revert s.
  induction fs as [|x rest IH]; intros s.
  - simpl. repeat split; trivial.
  - simpl for_range. rewrite res_bind, events_bind, final_bind.
    rewrite print_body_spec. cbv zeta.
    destruct (snd (fst (format mask x (st_world s)))) as [e|];
      cbn [res final events];
      match goal with
      | |- context [for_range rest _ ?s'] =>
          destruct (IH s') as (Hr & Hv & Hn)
      end;
      (split; [exact Hr|]); unfold visited, printed in *;
      rewrite !flat_map_app; simpl; rewrite Hv; (split; [reflexivity|]).
    + rewrite Hn. simpl. rewrite length_app. simpl. lia.
    + simpl in Hn |- *. rewrite <- Hn. lia.
Qed.

(** [print] formats every file it is given, once and in order, whatever
    happened to the files before; it never ends the process; and every
    file gives exactly one of a printed line and a collected error. *)
Theorem print_formats_every_file (dryrun : bool) (run : runner)
  (mask : string) (fs : list string) (s : state) :
  let out := dispatch dryrun run (printCmd mask fs) s in
  res out = Returned tt
  /\ visited format_target (events out) = fs
  /\ length (printed (events out)) + length (errors (final out)) =
     length fs + length (errors s).
Proof. exact (print_loop_visits dryrun run mask fs s). Qed.

Lemma rename_body_visits (mask : string) (dryrun : bool) (x : string)
  (s : state) :
  res (rename_body mask dryrun x s) = Returned Next
  /\ visited rename_target (events (rename_body mask dryrun x s)) = [x].
Proof.
  unfold rename_body. unfold_calls. unfold_monad.
  destruct (rename mask x dryrun (st_world s)) as [[e|] w]; split; reflexivity.
Qed.

(** [rename] calls the helper for every readable file, once and in order,
    whether earlier files failed or not, and never ends the process. *)
Theorem rename_visits_every_readable_file (dryrun : bool) (run : runner)
  (mask : string) (fs : list string) (s : state) :
  let out := dispatch dryrun run (renameCmd mask fs) s in
  res out = Returned tt
  /\ visited rename_target (events out) = filter (stat_ok (st_world s)) fs.
Proof.
  cbv zeta.
  rewrite (dispatch_filtered dryrun run (renameCmd mask fs) fs s eq_refl).
  cbv zeta. cbn [res events body_of].
  unfold visited. rewrite flat_map_app, stats_not_collected by reflexivity.
  simpl app.
  generalize (filter (stat_ok (st_world s)) fs) as xs. intros xs. revert s.
  induction xs as [|x rest IH]; intros s.
  - split; reflexivity.
  - simpl for_range. rewrite res_bind, events_bind, flat_map_app.
    destruct (rename_body_visits mask dryrun x s) as [Hr Hv].
    rewrite Hr. unfold visited in Hv. rewrite Hv.
    destruct (IH (final (rename_body mask dryrun x s))) as [Hr' Hv'].
    split; [exact Hr'|]. simpl. now rewrite Hv'.
Qed.

Lemma setDefault_body_visits (t : Z) (run : runner) (x : string) (s : state) :
  let b := setDefault_body t run x s in
  match res b with
  | Returned Next =>
      visited parse_target (events b) = [x]
      /\ map snd (setdefault_calls (events b)) = [t]
  | Returned Break => False
  | Exited _ => False
  | Halted =>
      visited parse_target (events b) = [x] /\ setdefault_calls (events b) = []
  end.
Proof.
  unfold setDefault_body. unfold_calls. unfold_monad.
  destruct (mustParseFile x (st_world s)) as [[m|] w]; simpl.
  - destruct (setdefault m t run w) as [[e|] w']; simpl; split; reflexivity.
  - split; reflexivity.
Qed.

(** [setdefault] goes through the readable files in order and does not stop
    at a failure of the helper: when the run of the [switch] returns,
    every readable file was parsed once and [setdefault] was called once
    per file, each time with the requested track; otherwise (a call of
    [mustParseFile] ended the process) that holds for the files before the
    one that did not parse. *)
Theorem setdefault_visits_every_readable_file (dryrun : bool) (run : runner)
  (t : Z) (fs : list string) (s : state) :
  let out := dispatch dryrun run (setDefaultCmd t fs) s in
  let readable_fs := filter (stat_ok (st_world s)) fs in
  match res out with
  | Returned _ =>
      visited parse_target (events out) = readable_fs
      /\ map snd (setdefault_calls (events out)) =
         map (fun _ => t) readable_fs
  | _ =>
      exists rest,
        readable_fs = visited parse_target (events out) ++ rest
        /\ exists rest',
             map (fun _ => t) readable_fs =
             map snd (setdefault_calls (events out)) ++ rest'
  end.
Proof.
  cbv zeta.
  rewrite (dispatch_filtered dryrun run (setDefaultCmd t fs) fs s eq_refl).
  cbv zeta. cbn [res events body_of].
  unfold visited, setdefault_calls.
  rewrite !flat_map_app, !stats_not_collected by reflexivity. simpl app.
  set (xs := filter (stat_ok (st_world s)) fs).
  set (o := for_range xs (setDefault_body t run) s).
  assert (Hv := for_range_collects string
            (fun e => match parse_target e with Some f => [f] | None => [] end)
            (fun x => x) xs (setDefault_body t run)).
  assert (Hc := for_range_collects Z
            (fun e => match e with
                      | EvSetdefault _ t' _ _ => [t']
                      | _ => []
                      end)
            (fun _ => t) xs (setDefault_body t run)).
  assert (Hm : forall evs,
            map snd (flat_map (fun e => match e with
                                        | EvSetdefault mkv t' _ _ => [(mkv, t')]
                                        | _ => []
                                        end) evs) =
            flat_map (fun e => match e with
                               | EvSetdefault _ t' _ _ => [t']
                               | _ => []
                               end) evs).
  { intros evs. induction evs as [|e evs IH]; simpl; trivial.
    rewrite map_app, IH. destruct e; reflexivity. }
  rewrite Hm.
  assert (Hbody1 : forall x s',
            match res (setDefault_body t run x s') with
            | Returned Next =>
                flat_map (fun e => match parse_target e with
                                   | Some f => [f] | None => [] end)
                         (events (setDefault_body t run x s')) = [x]
            | Returned Break => False
            | Exited _ => False
            | Halted =>
                flat_map (fun e => match parse_target e with
                                   | Some f => [f] | None => [] end)
                         (events (setDefault_body t run x s')) = [x]
                \/ flat_map (fun e => match parse_target e with
                                      | Some f => [f] | None => [] end)
                            (events (setDefault_body t run x s')) = []
            end).
  { intros x s'. pose proof (setDefault_body_visits t run x s') as H.
    cbv zeta in H. unfold visited in H.
    destruct (res (setDefault_body t run x s')) as [[|]| |]; tauto. }
  assert (Hbody2 : forall x s',
            match res (setDefault_body t run x s') with
            | Returned Next =>
                flat_map (fun e => match e with
                                   | EvSetdefault _ t' _ _ => [t']
                                   | _ => [] end)
                         (events (setDefault_body t run x s')) = [t]
            | Returned Break => False
            | Exited _ => False
            | Halted =>
                flat_map (fun e => match e with
                                   | EvSetdefault _ t' _ _ => [t']
                                   | _ => [] end)
                         (events (setDefault_body t run x s')) = [t]
                \/ flat_map (fun e => match e with
                                      | EvSetdefault _ t' _ _ => [t']
                                      | _ => [] end)
                            (events (setDefault_body t run x s')) = []
            end).
  { intros x s'. pose proof (setDefault_body_visits t run x s') as H.
    cbv zeta in H. unfold setdefault_calls in H. rewrite <- !Hm.
    destruct (res (setDefault_body t run x s')) as [[|]| |]; try tauto.
    destruct H as [_ ->]. now right. }
  specialize (Hv Hbody1 s). specialize (Hc Hbody2 s).
  fold o in Hv, Hc. rewrite map_id in Hv.
  destruct (res o).
  - split; assumption.
  - destruct Hv as [r1 Hv]. destruct Hc as [r2 Hc]. eauto.
  - destruct Hv as [r1 Hv]. destruct Hc as [r2 Hc]. eauto.
Qed.

End Visits.

(** ** Order of the checks, collected errors, and the quiet subcommands *)

Section Collected.

Context {P : Platform}.

Ltac run_body :=
  unfold body_of, print_body, rename_body, setDefault_body,
    setDefaultByLang_body, show_body;
  unfold_calls; unfold_monad; simpl;
  repeat match goal with
         | |- context [match ?x with _ => _ end] => destruct x; simpl
         end.

Lemma body_never_stats (dryrun : bool) (run : runner) (k : command)
  (x : string) (s : state) :
  Forall (fun e => ~ is_stat e) (events (body_of dryrun run k x s)).
Proof. destruct k; run_body; repeat constructor; simpl; tauto. Qed.

(** In [rename], [setdefault], [setdefaultbylang] and [show] all the
    checks come first: every given file is checked once, in order, against
    the world as it is before the first file is worked on, and no file is
    checked again later. *)
Theorem all_files_checked_before_any_work (dryrun : bool) (run : runner)
  (k : command) (fs : list string) (s : state) :
  filtered_files k = Some fs ->
  exists work,
    events (dispatch dryrun run k s) =
      flat_map (stat_events (st_world s)) fs ++ work
    /\ Forall (fun e => ~ is_stat e) work
    /\ work = events (for_range (filter (stat_ok (st_world s)) fs)
                        (body_of dryrun run k) s).
Proof.
  intros Hk. rewrite (dispatch_filtered dryrun run k fs s Hk). cbv zeta.
  eexists. split; [reflexivity|]. split; [|reflexivity].
  apply for_range_events. intros x s' _. apply body_never_stats.
Qed.

Lemma loop_errors_bound (dryrun : bool) (run : runner) (k : command)
  (xs : list string) (s : state) :
  exists added,
    errors (final (for_range xs (body_of dryrun run k) s)) = errors s ++ added
    /\ Forall (fun err => err <> None) added
    /\ length added <= length xs.
Proof.
  revert s. induction xs as [|x rest IH]; intros s.
  - exists []. simpl. rewrite app_nil_r. repeat split; auto.
  - simpl for_range. rewrite final_bind.
    assert (Hb : exists one,
               errors (final (body_of dryrun run k x s)) = errors s ++ one
               /\ Forall (fun err => err <> None) one /\ length one <= 1).
    { destruct (body_errors dryrun run k x s) as [H|[e H]].
      - exists []. rewrite app_nil_r. repeat split; auto.
      - exists [Some (Errorf x e)]. repeat split; auto.
        constructor; [discriminate | constructor]. }
    destruct Hb as (one & Hone & Hnn & Hlen).
    destruct (res (body_of dryrun run k x s)) as [[|]| |].
    + destruct (IH (final (body_of dryrun run k x s)))
        as (more & Hmore & Hnn' & Hlen').
      exists (one ++ more). rewrite Hmore, Hone, app_assoc.
      repeat split; trivial.
      * apply Forall_app. split; trivial.
      * rewrite length_app. simpl. lia.
    + exists one. simpl. repeat split; trivial. simpl. lia.
    + exists one. repeat split; trivial. simpl. lia.
    + exists one. repeat split; trivial. simpl. lia.
Qed.

(** The loops over files ([print], [rename], [setdefault],
    [setdefaultbylang]) only ever append errors, never a nil one, and at
    most one per given file: for these subcommands the run fails as soon
    as anything at all was collected. *)
Theorem loops_collect_only_real_errors (dryrun : bool) (run : runner)
  (k : command) (fs : list string) (s : state) :
  looped_files k = Some fs ->
  exists added,
    errors (final (dispatch dryrun run k s)) = errors s ++ added
    /\ Forall (fun err => err <> None) added
    /\ length added <= length fs
    /\ (any_failed added = true <-> added <> []).
Proof.
  intros Hk.
  assert (Hany : forall added,
            Forall (fun err : option error => err <> None) added ->
            (any_failed added = true <-> added <> [])).
  { intros added Hnn. destruct added as [|[e|] rest]; simpl.
    - split; [discriminate | congruence].
    - split; [discriminate | reflexivity].
    - inversion Hnn. congruence. }
  destruct (filtered_files k) as [fs'|] eqn:Hf.
  - assert (fs' = fs) by (destruct k; simpl in *; congruence). subst fs'.
    rewrite (dispatch_filtered dryrun run k fs s Hf). cbv zeta. cbn [final].
    destruct (loop_errors_bound dryrun run k
                (filter (stat_ok (st_world s)) fs) s)
      as (added & Hadd & Hnn & Hlen).
    exists added. repeat split; trivial; try (now apply Hany).
    pose proof (filter_length_le (stat_ok (st_world s)) fs). lia.
  - destruct k; try discriminate. injection Hk as <-.
    destruct (loop_errors_bound dryrun run (printCmd printFormat printFiles)
                printFiles s) as (added & Hadd & Hnn & Hlen).
    exists added. repeat split; trivial; now apply Hany.
Qed.

Lemma show_loop_keeps_errors (u : bool) (xs : list string) (s : state) :
  errors (final (for_range xs (show_body u) s)) = errors s.
Proof.
  apply (for_range_final (fun s' => errors s' = errors s)); trivial.
  intros x s' _ Hs'. unfold show_body. unfold_calls. unfold_monad.
  destruct (mustParseFile x (st_world s')) as [[m|] w]; simpl; trivial.
Qed.

Lemma no_fatal_not_in (evs : list event) (line : string) :
  Forall (fun e => ~ is_fatal e) evs -> ~ In (EvFatal line) evs.
Proof.
  intros H Hin. rewrite Forall_forall in H. apply (H _ Hin). exact I.
Qed.

Lemma length_append_string (a b : string) :
  String.length (a ++ b)%string = String.length a + String.length b.
Proof. induction a as [|c a IH]; simpl; [reflexivity | now rewrite IH]. Qed.

Lemma stamped_line_differs (header : string) (e : error) :
  (header ++ "Requirements check: " ++ e)%string <> "Execution failed".
Proof.
  intros H. apply (f_equal String.length) in H.
  rewrite !length_append_string in H. simpl in H. lia.
Qed.

Lemma quiet_switch_never_fails (dryrun : bool) (k : command) (w : world) :
  (forall s, errors (final (dispatch dryrun (runner_of dryrun) k s)) =
             errors s) ->
  errors (final (run_main dryrun k w)) = []
  /\ ~ In (EvFatal "Execution failed") (events (run_main dryrun k w)).
Proof.
  intros Hkeep. rewrite run_main_unfolds. unfold run_of_switch.
  destruct (requirements w) as [[e|] w'].
  - split; trivial. cbn [events In]. intros [H|[H|[]]]; [discriminate|].
    injection H as H. exact (stamped_line_differs _ _ H).
  - cbv zeta.
    pose proof (Hkeep (mkState w' [])) as He. simpl in He.
    pose proof (dispatch_no_fatal dryrun (runner_of dryrun) k (mkState w' []))
      as Hnf.
    assert (Hp : Forall (fun e => ~ is_fatal e) (prologue dryrun))
      by (unfold prologue; destruct dryrun; repeat constructor; simpl; tauto).
    destruct (res (dispatch dryrun (runner_of dryrun) k (mkState w' [])));
      cbn [final events]; rewrite ?He; (split; [reflexivity|]);
      apply no_fatal_not_in;
      cbn [any_failed existsb error_lines flat_map app];
      rewrite ?app_nil_r; apply Forall_app; split; trivial.
Qed.

(** [show] and [version] never collect an error: their runs never end in
    the fatal [Execution failed]; the only way they exit with a status
    other than 0 is a failed requirements check (or, for [show], the end
    of the process inside [mustParseFile]). *)
Theorem show_and_version_never_report_failure (dryrun : bool) (u : bool)
  (fs : list string) (w : world) :
  (errors (final (run_main dryrun (showCmd u fs) w)) = []
   /\ ~ In (EvFatal "Execution failed")
           (events (run_main dryrun (showCmd u fs) w)))
  /\ (errors (final (run_main dryrun versionCmd w)) = []
      /\ ~ In (EvFatal "Execution failed")
              (events (run_main dryrun versionCmd w))).
Proof.
  split; apply quiet_switch_never_fails; intros s.
  - rewrite (dispatch_filtered dryrun (runner_of dryrun) (showCmd u fs) fs s
               eq_refl).
    cbv zeta. cbn [final body_of]. apply show_loop_keeps_errors.
  - reflexivity.
Qed.

Lemma stats_of_readable (w : world) (fs : list string) :
  flat_map (stat_events w) (filter (stat_ok w) fs) =
  map (fun f => EvStat f None) (filter (stat_ok w) fs).
Proof.
  induction fs as [|f rest IH]; simpl; trivial.
  destruct (stat_ok w f) eqn:E; trivial.
  simpl. rewrite IH. unfold stat_ok in E. unfold stat_events.
  destruct (os_Stat f w); [discriminate | reflexivity].
Qed.

(** On a list it returned, [readable] is the identity and writes no note:
    filtering twice is filtering once. *)
Theorem readable_twice_is_once (fs : list string) (s : state) :
  let kept := filter (stat_ok (st_world s)) fs in
  res (readable fs s) = Returned kept
  /\ readable kept s =
     mkOutcome (Returned kept) s (map (fun f => EvStat f None) kept).
Proof.
  cbv zeta. unfold readable. rewrite !readable_from_spec.
  cbn [res app]. split; trivial.
  now rewrite filter_stat_ok_twice, stats_of_readable.
Qed.

(** The whole run of [merge]: one call of [remux] on the inputs exactly as
    given (none checked, none dropped), with the chosen Runner; its result
    is the only collected error, logged as the helper returned it, and
    alone decides the exit status. *)
Theorem merge_run_is_one_remux (dryrun : bool) (o : string) (subs : bool)
  (inputs : list string) (w w1 w2 : world) (err : option error) :
  requirements w = (None, w1) ->
  remux inputs o (runner_of dryrun) subs w1 = (err, w2) ->
  run_main dryrun (mergeCmd o subs inputs) w =
  mkOutcome (match err with Some _ => Exited 1 | None => Returned tt end)
    (mkState w2 [err])
    (prologue dryrun ++
     [EvRemux inputs o (runner_of dryrun) subs err] ++ verdict err).
Proof.
  intros Hreq Hremux. rewrite run_main_unfolds. unfold run_of_switch.
  rewrite Hreq. cbv zeta. unfold dispatch. unfold_calls. unfold_monad.
  simpl. rewrite Hremux. simpl.
  destruct err as [e|]; simpl; rewrite ?app_nil_r; reflexivity.
Qed.

End Collected.

(** ** [show] *)

Section Show.

Context {P : Platform}.

(** [show] parses every readable file, once and in order, and shows each
    parsed file with the [--uid] flag as given; it stops only where
    [mustParseFile] ends the process, and it changes nothing in the
    collected errors. *)
Theorem show_visits_every_readable_file (dryrun : bool) (run : runner)
  (u : bool) (fs : list string) (s : state) :
  let out := dispatch dryrun run (showCmd u fs) s in
  let readable_fs := filter (stat_ok (st_world s)) fs in
  errors (final out) = errors s
  /\ Forall (fun e => match e with
                      | EvShow _ uid => uid = u
                      | _ => True
                      end) (events out)
  /\ match res out with
     | Returned _ => visited parse_target (events out) = readable_fs
     | _ => exists rest,
              readable_fs = visited parse_target (events out) ++ rest
     end.
Proof.
  cbv zeta.
  rewrite (dispatch_filtered dryrun run (showCmd u fs) fs s eq_refl).
  cbv zeta. cbn [res final events body_of].
  split; [apply show_loop_keeps_errors|]. split.
  - apply Forall_app. split.
    + eapply Forall_impl; [|apply stat_events_shape].
      intros [] H; simpl in H; try contradiction; exact I.
    + apply for_range_events. intros x s' _.
      unfold show_body. unfold_calls. unfold_monad.
      destruct (mustParseFile x (st_world s')) as [[m|] w]; simpl;
        repeat constructor.
  - unfold visited. rewrite flat_map_app, stats_not_collected by reflexivity.
    simpl app.
    pose proof (for_range_collects string
                  (fun e => match parse_target e with
                            | Some f => [f]
                            | None => []
                            end)
                  (fun x => x) (filter (stat_ok (st_world s)) fs)
                  (show_body u)) as Hv.
    rewrite map_id in Hv. apply Hv. intros x s'.
    unfold show_body. unfold_calls. unfold_monad.
    destruct (mustParseFile x (st_world s')) as [[m|] w]; simpl; auto.
Qed.

End Show.

(** ** Further runs on the concrete platforms *)

Section More_runs.

(** Without the external tools nothing happens, even in a dry run. *)
Lemma requirements_failure_witness :
  @run_process Bare.platform ["-n"; "rename"; "a.mkv"] ["a.mkv"] =
    @mkOutcome Bare.platform unit (Exited 1)
      (@mkState Bare.platform ["a.mkv"] [])
      [@EvRequirements Bare.platform
         (Some "mkvmerge: executable file not found");
       @EvFatal Bare.platform
         "2009/11/10 23:00:00 Requirements check: mkvmerge: executable file not found"]
  /\ @run_main Bare.platform true (renameCmd "new-" ["a.mkv"]) ["a.mkv"] =
     @run_process Bare.platform ["-n"; "rename"; "a.mkv"] ["a.mkv"].
Proof.
  exact (requirements_failure_stops_everything (P:=Bare.platform)
           ["-n"; "rename"; "a.mkv"] true (renameCmd "new-" ["a.mkv"])
           ["a.mkv"] ["a.mkv"] "mkvmerge: executable file not found" eq_refl).
Defined.

Local Existing Instance Sim.platform.

(** [rename] of a missing and a present file: both checks, then the
    work. *)
Lemma checks_first_witness :
  filtered_files (renameCmd "new-" ["ghost.mkv"; "a.mkv"]) =
    Some ["ghost.mkv"; "a.mkv"]
  /\ exists work,
       events (dispatch false runCmd (renameCmd "new-" ["ghost.mkv"; "a.mkv"])
                 (mkState ["a.mkv"] [])) =
         flat_map (stat_events ["a.mkv"]) ["ghost.mkv"; "a.mkv"] ++ work
       /\ Forall (fun e => ~ is_stat e) work
       /\ work = events (for_range
                           (filter (stat_ok ["a.mkv"]) ["ghost.mkv"; "a.mkv"])
                           (body_of false runCmd
                              (renameCmd "new-" ["ghost.mkv"; "a.mkv"]))
                           (mkState ["a.mkv"] [])).
Proof.
  split; [reflexivity|].
  exact (all_files_checked_before_any_work (P:=Sim.platform) false runCmd
           (renameCmd "new-" ["ghost.mkv"; "a.mkv"]) ["ghost.mkv"; "a.mkv"]
           (mkState (P:=Sim.platform) ["a.mkv"] []) eq_refl).
Defined.

(** [setdefault] of track 3 on two files, one of which has no such
    track. *)
Lemma real_errors_witness :
  looped_files (setDefaultCmd 3 ["a.mkv"; "b.mkv"]) = Some ["a.mkv"; "b.mkv"]
  /\ exists added,
       errors (final (dispatch false runCmd
                        (setDefaultCmd 3 ["a.mkv"; "b.mkv"])
                        (mkState ["a.mkv"; "b.mkv"] []))) = [] ++ added
       /\ Forall (fun err => err <> None) added
       /\ length added <= 2
       /\ (any_failed added = true <-> added <> []).
Proof.
  split; [reflexivity|].
  exact (loops_collect_only_real_errors (P:=Sim.platform) false runCmd
           (setDefaultCmd 3 ["a.mkv"; "b.mkv"]) ["a.mkv"; "b.mkv"]
           (mkState (P:=Sim.platform) ["a.mkv"; "b.mkv"] []) eq_refl).
Defined.

(** [merge] of a missing input: handed to [remux] as it is. *)
Lemma merge_run_witness :
  run_main false (mergeCmd "out.mkv" true ["ghost.mkv"]) [] =
  mkOutcome (Exited 1) (mkState [] [Some "mkvmerge: exit status 2"])
    [EvRequirements None;
     EvRemux ["ghost.mkv"] "out.mkv" runCmd true
       (Some "mkvmerge: exit status 2");
     EvLog "mkvmerge: exit status 2"; EvFatal "Execution failed"].
Proof.
  exact (merge_run_is_one_remux (P:=Sim.platform) false "out.mkv" true
           ["ghost.mkv"] [] [] [] (Some "mkvmerge: exit status 2")
           eq_refl eq_refl).
Defined.

End More_runs.

(** ** Exit status and collected errors, over every run of the process *)

Section Exit_status.

Context {P : Platform}.



End Exit_status.

(** ** Unreadable files, by subcommand *)

Section Unreadable.

Context {P : Platform}.


End Unreadable.

(** ** Runs that end early, and a skipped file *)

Section Early_endings.


Local Existing Instance Sim.platform.


End Early_endings.
